(** * spaGO: parameters, their binary format, Reshape and the embeddings store

    A shallow embedding of
    - [pkg/ml/nn] (the file defining [param], [Payload] and [ParamSerializer]),
    - [pkg/ml/ag/fn/reshape.go],
    - [pkg/nlp/embeddings/embeddings.go],
    with the parts of [pkg/mat], [pkg/ml/ag] and [pkg/utils/kvdb] they call.

    Go code is modelled as follows.
    - A function that may panic, call [log.Fatal] or return an [error] returns a
      [result]; a method of [*param] is a state transformer over [pstate].
    - [float64] is a type parameter [F] with its addition and subtraction: the
      development does not depend on IEEE-754 except where a lemma instantiates
      [F] with Rocq's primitive binary64 floats.
    - A [sync.Mutex] is modelled by the [EvLock]/[EvUnlock] events a method
      leaves in the trace, next to its accesses to the guarded fields. *)

From Stdlib Require Import ZArith List Strings.Byte PrimFloat.
From stdpp Require Import base option list gmap strings.

Open Scope Z_scope.
#[global] Set Warnings "-clear-no-such-hyp".

(** ** Results *)

(** What running a piece of Go code may end in: a normal return, a returned
    [error], a run-time panic, or [log.Fatal] (the process exits). *)
Inductive result (A : Type) : Type :=
| Ok (a : A)
| Err (e : string)
| Panic (msg : string)
| Fatal (msg : string).
Arguments Ok {A} a.
Arguments Err {A} e.
Arguments Panic {A} msg.
Arguments Fatal {A} msg.

#[global] Instance result_ret : MRet result := fun _ a => Ok a.
#[global] Instance result_bind : MBind result := fun _ _ k r =>
  match r with
  | Ok a => k a
  | Err e => Err e
  | Panic m => Panic m
  | Fatal m => Fatal m
  end.

(** [if err != nil { log.Fatal(err) }] *)
Definition fatal_on_err {A} (r : result A) : result A :=
  match r with
  | Err e => Fatal e
  | _ => r
  end.

Definition is_Ok {A} (r : result A) : bool :=
  match r with Ok _ => true | _ => false end.

(** ** Package [mat] *)

Module mat.
Section Mat.
Context {F : Type}.
Variable fzero : F.
Variables fadd fsub : F → F → F.

(** [*mat.Dense]: [rows], [cols] and the row-major [data]. *)
Record Dense : Type := mkDense { Rows : Z; Columns : Z; Data : list F }.

Definition Dims (m : Dense) : Z * Z := (Rows m, Columns m).

(** Modelled from the spec: [Dense.Size] of pkg/mat (not under src/), the
    number of elements, rows times columns. *)
Definition Size (m : Dense) : Z := Rows m * Columns m.

Definition SameDims (a b : Dense) : bool :=
  (Rows a =? Rows b) && (Columns a =? Columns b).

(** Modelled from the spec: [mat.GetEmptyDenseWorkspace] of pkg/mat (not under
    src/): a pooled buffer of the given dimensions, zero-initialized on every
    acquisition. *)
Definition GetEmptyDenseWorkspace (r c : Z) : Dense :=
  mkDense r c (replicate (Z.to_nat (r * c)) fzero).

(** Modelled from the spec: [Dense.AddInPlace] of pkg/mat (not under src/):
    element-wise addition into the receiver, a ShapeError (a panic) when the
    dimensions differ, no implicit broadcasting. *)
Definition AddInPlace (a b : Dense) : result Dense :=
  if SameDims a b
  then Ok (mkDense (Rows a) (Columns a) (zip_with fadd (Data a) (Data b)))
  else Panic "mat: matrices with not compatible size".

(** Modelled from the spec: [Dense.SubInPlace] of pkg/mat (not under src/). *)
Definition SubInPlace (a b : Dense) : result Dense :=
  if SameDims a b
  then Ok (mkDense (Rows a) (Columns a) (zip_with fsub (Data a) (Data b)))
  else Panic "mat: matrices with not compatible size".

(** Modelled from the spec: [Dense.Reshape] of pkg/mat (not under src/): the
    same elements in row-major order under new dimensions, a SizeMismatch (a
    panic) when [r * c] is not the number of elements. *)
Definition Reshape (m : Dense) (r c : Z) : result Dense :=
  if Size m =? r * c
  then Ok (mkDense r c (Data m))
  else Panic "mat: incompatible sizes".

(** Modelled from the spec: [Dense.Scalar] of pkg/mat (not under src/): the
    only element of a 1x1 matrix, a ShapeError otherwise. *)
Definition Scalar (m : Dense) : result F :=
  match Data m with
  | [x] => if (Rows m =? 1) && (Columns m =? 1) then Ok x
           else Panic "mat: expected scalar but the matrix contains more elements"
  | _ => Panic "mat: expected scalar but the matrix contains more elements"
  end.

(** [mat.ReleaseDense] hands the buffer back to the pool: the matrix it is
    given must not be used afterwards, its contents are not changed. *)
Definition ReleaseDense (m : Dense) : unit := tt.

End Mat.
Arguments Dense F : clear implicits.
Arguments SameDims : simpl never.
Arguments AddInPlace : simpl never.
Arguments SubInPlace : simpl never.
Arguments Reshape : simpl never.
Arguments GetEmptyDenseWorkspace : simpl never.
End mat.

(** ** Package [encoding/binary], little-endian *)

Module binary.

Definition byte_of_Z (z : Z) : byte :=
  default Byte.x00 (Byte.of_N (Z.to_N (z mod 256))).

Definition Z_of_byte (b : byte) : Z := Z.of_N (Byte.to_N b).

(** The [n] low bytes of [z], least significant first. *)
Fixpoint PutUint (n : nat) (z : Z) : list byte :=
  match n with
  | O => []
  | S n' => byte_of_Z z :: PutUint n' (z / 256)
  end.

Fixpoint Uint (bs : list byte) : Z :=
  match bs with
  | [] => 0
  | b :: bs' => Z_of_byte b + 256 * Uint bs'
  end.

(** Conversion to [int64]: the value modulo 2^64, read as two's complement. *)
Definition int64 (z : Z) : Z := (z + 2 ^ 63) mod 2 ^ 64 - 2 ^ 63.

(** [binary.Write(w, binary.LittleEndian, x)] for an [int64] field. *)
Definition PutInt64 (z : Z) : list byte := PutUint 8 z.

(** [binary.Read(r, binary.LittleEndian, &x)] for an [int64] field, from its
    eight bytes. *)
Definition Int64 (bs : list byte) : Z := int64 (Uint bs).

(** Modelled from the spec: [utils.ReadFull] of pkg/utils (not under src/),
    as [io.ReadFull]: exactly [n] bytes, or an error when the reader holds
    fewer. *)
Definition ReadFull (r : list byte) (n : nat) : result (list byte * list byte) :=
  if (n <=? length r)%nat
  then Ok (take n r, drop n r)
  else Err (if (length r =? 0)%nat then "EOF" else "unexpected EOF").

Lemma Z_of_byte_of_Z (z : Z) : Z_of_byte (byte_of_Z z) = z mod 256.
Proof.
  unfold Z_of_byte, byte_of_Z.
  pose proof (Z.mod_pos_bound z 256 eq_refl) as Hb.
  pose proof (Byte.to_of_N_option_map (Z.to_N (z mod 256))) as Hmap.
  replace (N.leb (Z.to_N (z mod 256)) 255) with true in Hmap
    by (symmetry; apply N.leb_le; lia).
  destruct (Byte.of_N (Z.to_N (z mod 256))) as [b|]; [|discriminate].
  cbn in *. injection Hmap as ->. lia.
Qed.

Lemma length_PutUint (n : nat) (z : Z) : length (PutUint n z) = n.
Proof. revert z. induction n as [|n IH]; intros z; cbn; [done|by rewrite IH]. Qed.

Lemma Uint_PutUint (n : nat) (z : Z) : Uint (PutUint n z) = z mod 256 ^ Z.of_nat n.
Proof.
  revert z. induction n as [|n IH]; intros z.
  - cbn. by rewrite Z.mod_1_r.
  - cbn [PutUint Uint]. rewrite IH, Z_of_byte_of_Z.
    rewrite Nat2Z.inj_succ, Z.pow_succ_r by lia.
    rewrite Z.rem_mul_r by lia. reflexivity.
Qed.

Lemma int64_small (z : Z) : - 2 ^ 63 ≤ z < 2 ^ 63 → int64 z = z.
Proof.
  intros Hz. unfold int64. rewrite Z.mod_small by lia. lia.
Qed.

(** An [int64] written and read back. *)
Lemma Int64_PutInt64 (z : Z) : - 2 ^ 63 ≤ z < 2 ^ 63 → Int64 (PutInt64 z) = z.
Proof.
  intros Hz. unfold Int64, PutInt64. rewrite Uint_PutUint.
  change (256 ^ Z.of_nat 8) with (2 ^ 64). unfold int64.
  destruct (Z_lt_le_dec z 0) as [Hneg|Hpos].
  - replace (z mod 2 ^ 64) with (z + 2 ^ 64)
      by (apply Z.mod_unique with (q := -1); lia).
    replace (z + 2 ^ 64 + 2 ^ 63) with (z + 2 ^ 63 + 1 * 2 ^ 64) by lia.
    rewrite Z.mod_add by lia. rewrite Z.mod_small by lia. lia.
  - rewrite (Z.mod_small z) by lia. rewrite Z.mod_small by lia. lia.
Qed.

Lemma ReadFull_app (bs rest : list byte) (n : nat) :
  length bs = n → ReadFull (bs ++ rest) n = Ok (bs, rest).
Proof.
  intros <-. unfold ReadFull.
  rewrite length_app, take_app_length, drop_app_length.
  case_match eqn:Hle; [done|]. apply Nat.leb_gt in Hle. lia.
Qed.

End binary.

(** ** Package [kvdb]: the backing store *)

Module kvdb.

(** A handle on a store. *)
Definition KeyValueDB : Type := nat.

(** The stores that are open, each a table from keys to values. A key is a
    [[]byte] made from a Go string: it is kept as the string. *)
Abbreviation stores := (gmap nat (gmap string (list byte))).

(** Modelled from the spec: the backing store contract ([Put], [Get], [Keys],
    [Close]) of pkg/utils/kvdb (not under src/). The one error modelled is the
    use of a handle that is not open. *)
Definition Put (db : KeyValueDB) (key : string) (val : list byte) (σ : stores)
  : result stores :=
  match σ !! db with
  | Some t => Ok (<[db := <[key := val]> t]> σ)
  | None => Err "kvdb: the store is not open"
  end.

Definition Get (db : KeyValueDB) (key : string) (σ : stores)
  : result (option (list byte)) :=
  match σ !! db with
  | Some t => Ok (t !! key)
  | None => Err "kvdb: the store is not open"
  end.

Definition Keys (db : KeyValueDB) (σ : stores) : result (list string) :=
  match σ !! db with
  | Some t => Ok (elements (dom t))
  | None => Err "kvdb: the store is not open"
  end.

Definition Close (db : KeyValueDB) (σ : stores) : result stores :=
  match σ !! db with
  | Some _ => Ok (delete db σ)
  | None => Err "kvdb: the store is not open"
  end.

End kvdb.

(** ** An encoding of matrices with integer elements *)

(** An instance to run the model on: the elements are integers, added and
    subtracted exactly, and a matrix is written as the spec lays out a Value,
    its dimensions followed by its elements in row-major order, here each a
    64-bit little-endian word. *)
Module exact.

Definition MarshalBinaryTo (m : mat.Dense Z) : result (list byte) :=
  Ok (binary.PutInt64 (mat.Rows m) ++ binary.PutInt64 (mat.Columns m)
      ++ concat (map binary.PutInt64 (mat.Data m))).

Fixpoint read_elements (n : nat) (r : list byte) : result (list Z * list byte) :=
  match n with
  | O => Ok ([], r)
  | S n' =>
    '(b, r1) ← binary.ReadFull r 8;
    '(xs, r2) ← read_elements n' r1;
    mret (binary.Int64 b :: xs, r2)
  end.

Definition NewUnmarshalBinaryFrom (r : list byte) : result (mat.Dense Z * list byte) :=
  '(b1, r1) ← binary.ReadFull r 8;
  '(b2, r2) ← binary.ReadFull r1 8;
  let rows := binary.Int64 b1 in
  let cols := binary.Int64 b2 in
  if (rows <? 0) || (cols <? 0) then Err "mat: negative dimension"
  else
    '(xs, r3) ← read_elements (Z.to_nat (rows * cols)) r2;
    mret (mat.mkDense rows cols xs, r3).

End exact.

(** ** Package [nn]: parameters *)

Module nn.

Inductive ParamsType := Weights | Biases | Undefined.

(** The fields of [param] that its mutex is there to guard. *)
Inductive field := FValue | FGrad | FPayload.

(** What a method leaves in the trace: [r.mu.Lock()], [r.mu.Unlock()], and
    the reads and writes of the fields [value], [grad] and [payload] (a write
    is an assignment to the field or an in-place update of the matrix it
    points to). *)
Inductive event :=
| EvLock
| EvUnlock
| EvRead (f : field)
| EvWrite (f : field).

#[global] Instance field_eq_dec : EqDecision field.
Proof. solve_decision. Defined.
#[global] Instance event_eq_dec : EqDecision event.
Proof. solve_decision. Defined.

(** The lock discipline of a trace: [Lock] only when the mutex is free,
    [Unlock] only when it is held, and every access to a guarded field while
    it is held. The boolean is whether the mutex is held. *)
Fixpoint guarded_from (held : bool) (tr : list event) : bool :=
  match tr with
  | [] => true
  | EvLock :: tr' => negb held && guarded_from true tr'
  | EvUnlock :: tr' => held && guarded_from false tr'
  | EvRead _ :: tr' => held && guarded_from held tr'
  | EvWrite _ :: tr' => held && guarded_from held tr'
  end.

Definition guarded (tr : list event) : bool := guarded_from false tr.

(** The same for the writes alone: reads may happen outside the lock. *)
Fixpoint writes_guarded_from (held : bool) (tr : list event) : bool :=
  match tr with
  | [] => true
  | EvLock :: tr' => negb held && writes_guarded_from true tr'
  | EvUnlock :: tr' => held && writes_guarded_from false tr'
  | EvRead _ :: tr' => writes_guarded_from held tr'
  | EvWrite _ :: tr' => held && writes_guarded_from held tr'
  end.

Definition writes_guarded (tr : list event) : bool := writes_guarded_from false tr.

Section Nn.
Context {F : Type}.
Variable fzero : F.
Variables fadd fsub : F → F → F.

(** [mat.MarshalBinaryTo] and [mat.NewUnmarshalBinaryFrom] of pkg/mat are not
    under src/: the encoding of one matrix is a parameter. The reader is the
    list of bytes still to read; decoding returns the matrix and the rest. *)
Variable MarshalBinaryTo : mat.Dense F → result (list byte).
Variable NewUnmarshalBinaryFrom : list byte → result (mat.Dense F * list byte).

Local Abbreviation Dense := (mat.Dense F).

(** [Payload]: the support data of the optimization methods. *)
Record Payload : Type := mkPayload { Label : Z; Data : list Dense }.

(** [NewEmptySupport] *)
Definition NewEmptySupport : Payload := mkPayload 0 [].

(** The struct [param]. [value] is a [mat.Matrix] and may be nil, [payload] is
    a [*Payload] and may be nil, [storage] is nil by default. The mutex [mu]
    is in the trace. *)
Record param : Type := mkParam {
  name : string;
  pType : ParamsType;
  value : option Dense;
  grad : option Dense;
  payload : option Payload;
  hasGrad : bool;
  requiresGrad : bool;
  storage : option kvdb.KeyValueDB
}.

Definition set_name (x : string) (p : param) : param :=
  mkParam x (pType p) (value p) (grad p) (payload p) (hasGrad p) (requiresGrad p) (storage p).
Definition set_pType (x : ParamsType) (p : param) : param :=
  mkParam (name p) x (value p) (grad p) (payload p) (hasGrad p) (requiresGrad p) (storage p).
Definition set_value (x : option Dense) (p : param) : param :=
  mkParam (name p) (pType p) x (grad p) (payload p) (hasGrad p) (requiresGrad p) (storage p).
Definition set_grad (x : option Dense) (p : param) : param :=
  mkParam (name p) (pType p) (value p) x (payload p) (hasGrad p) (requiresGrad p) (storage p).
Definition set_payload (x : option Payload) (p : param) : param :=
  mkParam (name p) (pType p) (value p) (grad p) x (hasGrad p) (requiresGrad p) (storage p).
Definition set_hasGrad (x : bool) (p : param) : param :=
  mkParam (name p) (pType p) (value p) (grad p) (payload p) x (requiresGrad p) (storage p).
Definition set_requiresGrad (x : bool) (p : param) : param :=
  mkParam (name p) (pType p) (value p) (grad p) (payload p) (hasGrad p) x (storage p).
Definition set_storage (x : option kvdb.KeyValueDB) (p : param) : param :=
  mkParam (name p) (pType p) (value p) (grad p) (payload p) (hasGrad p) (requiresGrad p) x.

(** [ParamOption], a function on a [*param]: the two options the package
    offers. *)
Inductive ParamOption :=
| RequiresGrad (value : bool)
| SetStorage (storage : kvdb.KeyValueDB).

Definition apply_option (p : param) (opt : ParamOption) : param :=
  match opt with
  | RequiresGrad b => set_requiresGrad b p
  | SetStorage db => set_storage (Some db) p
  end.

(** [NewParam] *)
Definition NewParam (v : option Dense) (opts : list ParamOption) : param :=
  foldl apply_option (mkParam "" Undefined v None None false true None) opts.

(** *** The state a method runs in *)

(** The receiver, the open stores, and the trace of lock events and guarded
    accesses so far. *)
Record pstate : Type := mkPState {
  self : param;
  dbs : kvdb.stores;
  trace : list event
}.

Definition M (A : Type) : Type := pstate → result (A * pstate).

#[global] Instance M_ret : MRet M := fun _ a s => Ok (a, s).
#[global] Instance M_bind : MBind M := fun _ _ k m s =>
  match m s with
  | Ok (a, s') => k a s'
  | Err e => Err e
  | Panic msg => Panic msg
  | Fatal msg => Fatal msg
  end.

Definition lift {A} (r : result A) : M A := fun s =>
  match r with
  | Ok a => Ok (a, s)
  | Err e => Err e
  | Panic msg => Panic msg
  | Fatal msg => Fatal msg
  end.

Definition emit (e : event) : M unit := fun s =>
  Ok (tt, mkPState (self s) (dbs s) (trace s ++ [e])).

Definition get {A} (proj : param → A) : M A := fun s => Ok (proj (self s), s).

Definition modify (f : param → param) : M unit := fun s =>
  Ok (tt, mkPState (f (self s)) (dbs s) (trace s)).

Definition Lock : M unit := emit EvLock.
Definition Unlock : M unit := emit EvUnlock.

Definition read_value : M (option Dense) := emit (EvRead FValue);; get value.
Definition read_grad : M (option Dense) := emit (EvRead FGrad);; get grad.
Definition read_payload : M (option Payload) := emit (EvRead FPayload);; get payload.
Definition write_value (v : option Dense) : M unit :=
  emit (EvWrite FValue);; modify (set_value v).
Definition write_grad (g : option Dense) : M unit :=
  emit (EvWrite FGrad);; modify (set_grad g).
Definition write_payload (p : option Payload) : M unit :=
  emit (EvWrite FPayload);; modify (set_payload p).

(** [if err != nil { log.Fatal(err) }] around a call. *)
Definition fatal_on_errM {A} (m : M A) : M A := fun s => fatal_on_err (m s).

Definition with_dbs (f : kvdb.stores → result kvdb.stores) : M unit := fun s =>
  σ ← f (dbs s); mret (tt, mkPState (self s) σ (trace s)).

(** *** The binary format *)

(** [header]: the payload's label and the number of its matrices. *)
Record header : Type := mkHeader { header_Label : Z; header_Size : Z }.

(** [headerSize = binary.Size(header{})]: two [int64]. *)
Definition headerSize : nat := 16.

(** [header.marshalBinaryTo]: [binary.Write] of the struct, little-endian,
    into a buffer, then the buffer into [w]. *)
Definition header_marshalBinaryTo (h : header) : result (list byte) :=
  Ok (binary.PutInt64 (header_Label h) ++ binary.PutInt64 (header_Size h)).

(** [header.unmarshalBinary]: [binary.Read] of the struct, little-endian. *)
Definition header_unmarshalBinary (buf : list byte) : result header :=
  if (length buf <? headerSize)%nat then Err "unexpected EOF"
  else Ok (mkHeader (binary.Int64 (take 8 buf)) (binary.Int64 (take 8 (drop 8 buf)))).

(** [header.unmarshalBinaryFrom] *)
Definition header_unmarshalBinaryFrom (r : list byte) : result (header * list byte) :=
  '(buf, r') ← binary.ReadFull r headerSize;
  h ← header_unmarshalBinary buf;
  mret (h, r').

(** Modelled from the spec: [mat.MarshalBinarySlice] of pkg/mat (not under
    src/): the matrices of the payload, one encoded Value after the other. *)
Fixpoint MarshalBinarySlice (ms : list Dense) : result (list byte) :=
  match ms with
  | [] => Ok []
  | m :: ms' =>
    b ← MarshalBinaryTo m;
    bs ← MarshalBinarySlice ms';
    mret (b ++ bs)
  end.

(** Modelled from the spec: [mat.NewUnmarshalBinarySlice] of pkg/mat (not
    under src/): fills the [n] places of the slice, in order, each with the
    next Value read. *)
Fixpoint NewUnmarshalBinarySlice (n : nat) (r : list byte)
  : result (list Dense * list byte) :=
  match n with
  | O => Ok ([], r)
  | S n' =>
    '(m, r1) ← NewUnmarshalBinaryFrom r;
    '(ms, r2) ← NewUnmarshalBinarySlice n' r1;
    mret (m :: ms, r2)
  end.

(** [PayloadMarshalBinaryTo]. [supp] is a [*Payload]: reading [supp.Label]
    through a nil pointer panics. *)
Definition PayloadMarshalBinaryTo (supp : option Payload) : result (list byte) :=
  match supp with
  | None => Panic "runtime error: invalid memory address or nil pointer dereference"
  | Some supp =>
    let h := mkHeader (binary.int64 (Label supp))
                      (binary.int64 (Z.of_nat (length (Data supp)))) in
    b ← header_marshalBinaryTo h;
    bs ← MarshalBinarySlice (Data supp);
    mret (b ++ bs)
  end.

(** [NewPayloadUnmarshalBinaryFrom]. [make] panics on a negative length;
    [int(h.Label)] is the label itself, a Go [int] being 64 bits wide. (The
    count of bytes read that the function returns is not modelled; the source
    sets it with [n = +nn].) *)
Definition NewPayloadUnmarshalBinaryFrom (r : list byte)
  : result (Payload * list byte) :=
  '(h, r1) ← header_unmarshalBinaryFrom r;
  if header_Size h <? 0 then Panic "runtime error: makeslice: len out of range"
  else
    '(data, r2) ← NewUnmarshalBinarySlice (Z.to_nat (header_Size h)) r1;
    mret (mkPayload (header_Label h) data, r2).

(** [paramData] *)
Record paramData : Type := mkParamData { pdValue : Dense; pdPayload : option Payload }.

(** [paramDataMarshalBinaryTo] *)
Definition paramDataMarshalBinaryTo (data : paramData) : result (list byte) :=
  b ← MarshalBinaryTo (pdValue data);
  bs ← PayloadMarshalBinaryTo (pdPayload data);
  mret (b ++ bs).

(** [paramDataUnmarshalBinaryFrom] *)
Definition paramDataUnmarshalBinaryFrom (r : list byte)
  : result (paramData * list byte) :=
  '(v, r1) ← NewUnmarshalBinaryFrom r;
  '(supp, r2) ← NewPayloadUnmarshalBinaryFrom r1;
  mret (mkParamData v (Some supp), r2).

(** [ParamSerializer.Serialize] into a fresh buffer: the bytes written.
    The type assertion of [s.value] to [*mat.Dense] panics when [value] is
    nil. *)
Definition Serialize : M (list byte) :=
  v ← read_value;
  match v with
  | None => lift (Panic "interface conversion: interface is nil, not *mat.Dense")
  | Some d =>
    p ← read_payload;
    lift (paramDataMarshalBinaryTo (mkParamData d p))
  end.

(** [ParamSerializer.Deserialize]: the [err] it returns ([None] for nil); on
    an error the receiver is left as it was. *)
Definition Deserialize (r : list byte) : M (option string) :=
  match paramDataUnmarshalBinaryFrom r with
  | Err e => mret (Some e)
  | Panic msg => lift (Panic msg)
  | Fatal msg => lift (Fatal msg)
  | Ok (data, _) =>
    write_value (Some (pdValue data));;
    write_payload (pdPayload data);;
    mret None
  end.

(** *** The methods of [param] *)

Definition SetName (x : string) : M unit := modify (set_name x).
Definition SetType (x : ParamsType) : M unit := modify (set_pType x).
Definition Name : M string := get name.
Definition Type_ : M ParamsType := get pType.

(** [param.Value]: [return r.value]. *)
Definition Value : M (option Dense) := read_value.

(** [param.updateStorage] *)
Definition updateStorage : M unit :=
  st ← get storage;
  match st with
  | None => mret tt
  | Some db =>
    buf ← fatal_on_errM Serialize;
    key ← get name;
    with_dbs (fun σ => fatal_on_err (kvdb.Put db key buf σ))
  end.

(** [if r.storage != nil { r.updateStorage() }] *)
Definition updateStorage_if_backed : M unit :=
  st ← get storage;
  match st with
  | None => mret tt
  | Some _ => updateStorage
  end.

(** [param.ReplaceValue]. The deferred [Unlock] runs when the method returns. *)
Definition ReplaceValue (v : option Dense) : M unit :=
  Lock;;
  write_value v;;
  write_payload None;;
  updateStorage_if_backed;;
  Unlock.

(** [param.ScalarValue]: [r.value.Scalar()]. *)
Definition ScalarValue : M F :=
  v ← read_value;
  match v with
  | None => lift (Panic "runtime error: invalid memory address or nil pointer dereference")
  | Some d => lift (mat.Scalar d)
  end.

(** [param.Grad]: [return r.grad]. *)
Definition Grad : M (option Dense) := read_grad.

(** [param.PropagateGrad]. [r.grad.AddInPlace(grad)] reads the field and
    updates the matrix it points to. *)
Definition PropagateGrad (g : Dense) : M unit :=
  rg ← get requiresGrad;
  if negb rg then mret tt
  else
    Lock;;
    cur ← read_grad;
    match cur with
    | None =>
      v ← read_value;
      match v with
      | None => lift (Panic "runtime error: invalid memory address or nil pointer dereference")
      | Some d =>
        write_grad (Some (mat.GetEmptyDenseWorkspace fzero (mat.Rows d) (mat.Columns d)))
      end
    | Some _ => mret tt
    end;;
    acc ← read_grad;
    match acc with
    | None => lift (Panic "runtime error: invalid memory address or nil pointer dereference")
    | Some a =>
      a' ← lift (mat.AddInPlace fadd a g);
      write_grad (Some a')
    end;;
    modify (set_hasGrad true);;
    Unlock.

(** [param.HasGrad] *)
Definition HasGrad : M bool := get hasGrad.

(** [param.RequiresGrad] (the method; the option of the same name is the
    constructor [RequiresGrad]). *)
Definition GetRequiresGrad : M bool := get requiresGrad.

(** [param.SetRequiresGrad] *)
Definition SetRequiresGrad (b : bool) : M unit := modify (set_requiresGrad b).

(** [param.ZeroGrad]. The deferred [mat.ReleaseDense] of [r.grad] reads the
    field when the [defer] statement runs, under the lock. *)
Definition ZeroGrad : M unit :=
  cur ← read_grad;
  match cur with
  | None => mret tt
  | Some _ =>
    Lock;;
    old ← read_grad;
    write_grad None;;
    modify (set_hasGrad false);;
    Unlock
  end.

(** [param.ApplyDelta]: [r.Value().SubInPlace(delta)] calls the method
    [Value] while the lock is held, and updates the matrix in place. *)
Definition ApplyDelta (delta : Dense) : M unit :=
  Lock;;
  v ← Value;
  match v with
  | None => lift (Panic "runtime error: invalid memory address or nil pointer dereference")
  | Some d =>
    d' ← lift (mat.SubInPlace fsub d delta);
    write_value (Some d')
  end;;
  updateStorage_if_backed;;
  Unlock.

(** [param.Payload] (the method; [Payload] names the type). *)
Definition GetPayload : M (option Payload) :=
  Lock;;
  p ← read_payload;
  Unlock;;
  mret p.

(** [param.SetPayload] *)
Definition SetPayload (p : option Payload) : M unit :=
  Lock;;
  write_payload p;;
  updateStorage_if_backed;;
  Unlock.

(** [param.ClearPayload] *)
Definition ClearPayload : M unit :=
  Lock;;
  write_payload None;;
  updateStorage_if_backed;;
  Unlock.

(** [param.UnmarshalBinary]: assigns [r.value] whatever the decoder returned
    (nil on an error) and returns the error. *)
Definition UnmarshalBinary (data : list byte) : M (option string) :=
  match NewUnmarshalBinaryFrom data with
  | Ok (v, _) => write_value (Some v);; mret None
  | Err e => write_value None;; mret (Some e)
  | Panic msg => lift (Panic msg)
  | Fatal msg => lift (Fatal msg)
  end.

(** Calls of [PropagateGrad] with [g1], ..., [gk], in this order. *)
Fixpoint PropagateGrads (gs : list Dense) : M unit :=
  match gs with
  | [] => mret tt
  | g :: gs' => PropagateGrad g;; PropagateGrads gs'
  end.

(** The sum [AddInPlace] leaves in its receiver. *)
Definition madd (a b : Dense) : Dense :=
  mat.mkDense (mat.Rows a) (mat.Columns a) (zip_with fadd (mat.Data a) (mat.Data b)).

(** The gradient accumulated from the zero matrix of the dimensions of [v],
    in the order of the calls: [((0 + g1) + g2) + ... + gk]. *)
Definition accumulated (v : Dense) (gs : list Dense) : Dense :=
  foldl madd (mat.GetEmptyDenseWorkspace fzero (mat.Rows v) (mat.Columns v)) gs.

(** What a method returns, when it returns. *)
Definition returns {A} (m : M A) (s : pstate) : option A :=
  match m s with Ok (a, _) => Some a | _ => None end.

(** The events a method adds to the trace, when it returns. *)
Definition events_of {A} (m : M A) (p : param) (σ : kvdb.stores) : option (list event) :=
  match m (mkPState p σ []) with Ok (_, s') => Some (trace s') | _ => None end.

(** The receiver once a gradient [a] has been accumulated. *)
Definition with_grad (a : Dense) (p : param) : param :=
  set_hasGrad true (set_grad (Some a) p).

(** The calls on a parameter. ([MarshalBinary], which only reads [value], is
    left out.) *)
Inductive call : Type :=
| CallName
| CallSetName (x : string)
| CallType
| CallSetType (t : ParamsType)
| CallValue
| CallReplaceValue (v : option Dense)
| CallScalarValue
| CallGrad
| CallPropagateGrad (g : Dense)
| CallHasGrad
| CallRequiresGrad
| CallSetRequiresGrad (b : bool)
| CallZeroGrad
| CallApplyDelta (delta : Dense)
| CallPayload
| CallSetPayload (supp : option Payload)
| CallClearPayload
| CallUnmarshalBinary (data : list byte)
| CallSerialize
| CallDeserialize (r : list byte).

Definition void {A} (m : M A) : M unit := m;; mret tt.

Definition exec (c : call) : M unit :=
  match c with
  | CallName => void Name
  | CallSetName x => SetName x
  | CallType => void Type_
  | CallSetType t => SetType t
  | CallValue => void Value
  | CallReplaceValue v => ReplaceValue v
  | CallScalarValue => void ScalarValue
  | CallGrad => void Grad
  | CallPropagateGrad g => PropagateGrad g
  | CallHasGrad => void HasGrad
  | CallRequiresGrad => void GetRequiresGrad
  | CallSetRequiresGrad b => SetRequiresGrad b
  | CallZeroGrad => ZeroGrad
  | CallApplyDelta delta => ApplyDelta delta
  | CallPayload => void GetPayload
  | CallSetPayload supp => SetPayload supp
  | CallClearPayload => ClearPayload
  | CallUnmarshalBinary data => void (UnmarshalBinary data)
  | CallSerialize => void Serialize
  | CallDeserialize r => void (Deserialize r)
  end.

(** The states a parameter goes through: built by [NewParam], then any calls
    that return, and any changes others make to the stores. *)
Inductive reachable : pstate → Prop :=
| reachable_new (v : option Dense) (opts : list ParamOption) (σ : kvdb.stores) :
    reachable (mkPState (NewParam v opts) σ [])
| reachable_call (c : call) (s s' : pstate) :
    reachable s → exec c s = Ok (tt, s') → reachable s'
| reachable_stores (s : pstate) (σ : kvdb.stores) :
    reachable s → reachable (mkPState (self s) σ (trace s)).

Definition grad_flag_agrees (p : param) : Prop :=
  hasGrad p = true ↔ grad p ≠ None.

(** The encoding of the matrix [d] reads back as [d], whatever follows it. *)
Definition roundtrips (d : Dense) : Prop :=
  ∃ bs, MarshalBinaryTo d = Ok bs ∧
        ∀ rest, NewUnmarshalBinaryFrom (bs ++ rest) = Ok (d, rest).

(** A payload whose label and length fit an [int64] (as every Go [int] does
    on a 64-bit platform) and whose matrices read back. *)
Definition payload_ok (supp : Payload) : Prop :=
  - 2 ^ 63 ≤ Label supp < 2 ^ 63 ∧
  Z.of_nat (length (Data supp)) < 2 ^ 63 ∧
  Forall roundtrips (Data supp).

(** Unfolds the monad and the primitive accesses of a method's body. *)
Ltac step_M :=
  unfold Lock, Unlock, read_value, read_grad, read_payload,
    write_value, write_grad, write_payload, with_dbs, fatal_on_errM in *;
  unfold mbind, mret, M_bind, M_ret, result_bind, result_ret,
    emit, get, modify, lift in *;
  cbn in *.

(** *** [ReplaceValue] *)

Lemma ReplaceValue_unbacked (p : param) (σ : kvdb.stores) (tr : list event) (v : option Dense) :
  storage p = None →
  ReplaceValue v (mkPState p σ tr)
  = Ok (tt, mkPState (set_payload None (set_value v p)) σ
              (tr ++ [EvLock; EvWrite FValue; EvWrite FPayload; EvUnlock])).
Proof.
  intros Hst. unfold ReplaceValue, updateStorage_if_backed.
  step_M. rewrite Hst. cbn. by rewrite <- !app_assoc.
Qed.

(** C1, as the code has it: on a parameter that is not backed by a store,
    [ReplaceValue(v)] returns, under the lock, with [Value] swapped to [v] and
    the [Payload] cleared (afterwards [Value()] is [v] and [Payload()] is nil);
    the accumulated gradient and the has-gradient flag are left as they were,
    as are the name, the type, [requiresGrad] and the stores. *)
Theorem ReplaceValue_swaps_value_clears_payload
    (p : param) (σ : kvdb.stores) (tr : list event) (v : option Dense) :
  storage p = None →
  ∃ s', ReplaceValue v (mkPState p σ tr) = Ok (tt, s') ∧
    returns Value s' = Some v ∧
    returns GetPayload s' = Some None ∧
    returns Grad s' = Some (grad p) ∧
    returns HasGrad s' = Some (hasGrad p) ∧
    self s' = set_payload None (set_value v p) ∧
    dbs s' = σ ∧
    guarded (drop (length tr) (trace s')) = true.
Proof.
  intros Hst. eexists. split; [by apply ReplaceValue_unbacked|].
  repeat split; try reflexivity.
  cbn. by rewrite drop_app_length.
Qed.

(** *** [PropagateGrad] *)

Lemma PropagateGrad_noop (p : param) (σ : kvdb.stores) (tr : list event) (g : Dense) :
  requiresGrad p = false →
  PropagateGrad g (mkPState p σ tr) = Ok (tt, mkPState p σ tr).
Proof. intros Hrg. unfold PropagateGrad. step_M. by rewrite Hrg. Qed.

Lemma PropagateGrad_first (p : param) (σ : kvdb.stores) (tr : list event) (v g : Dense) :
  requiresGrad p = true → grad p = None → value p = Some v →
  mat.SameDims v g = true →
  PropagateGrad g (mkPState p σ tr)
  = Ok (tt, mkPState
              (with_grad (madd (mat.GetEmptyDenseWorkspace fzero (mat.Rows v) (mat.Columns v)) g) p)
              σ
              (tr ++ [EvLock; EvRead FGrad; EvRead FValue; EvWrite FGrad;
                      EvRead FGrad; EvWrite FGrad; EvUnlock])).
Proof.
  intros Hrg Hg Hv Hd. destruct p; cbn in *; subst.
  unfold PropagateGrad. step_M. unfold mat.AddInPlace.
  change (mat.SameDims (mat.GetEmptyDenseWorkspace fzero (mat.Rows v) (mat.Columns v)) g)
    with (mat.SameDims v g).
  rewrite Hd. cbn. by rewrite <- !app_assoc.
Qed.

Lemma PropagateGrad_next (p : param) (σ : kvdb.stores) (tr : list event) (a g : Dense) :
  requiresGrad p = true → grad p = Some a →
  mat.SameDims a g = true →
  PropagateGrad g (mkPState p σ tr)
  = Ok (tt, mkPState (with_grad (madd a g) p) σ
              (tr ++ [EvLock; EvRead FGrad; EvRead FGrad; EvWrite FGrad; EvUnlock])).
Proof.
  intros Hrg Hg Hd. destruct p; cbn in *; subst.
  unfold PropagateGrad. step_M. unfold mat.AddInPlace. rewrite Hd. cbn.
  by rewrite <- !app_assoc.
Qed.

Lemma madd_dims (a b : Dense) : mat.Dims (madd a b) = mat.Dims a.
Proof. reflexivity. Qed.

Lemma foldl_madd_dims (gs : list Dense) (a : Dense) :
  mat.Dims (foldl madd a gs) = mat.Dims a.
Proof.
  revert a. induction gs as [|g gs IH]; intros a; [done|].
  cbn [foldl]. by rewrite IH.
Qed.

Lemma SameDims_madd (a b g : Dense) : mat.SameDims (madd a b) g = mat.SameDims a g.
Proof. reflexivity. Qed.

Lemma PropagateGrads_from (gs : list Dense) (p : param) (σ : kvdb.stores)
    (tr : list event) (a : Dense) :
  requiresGrad p = true →
  Forall (λ g, mat.SameDims a g = true) gs →
  ∃ tr', PropagateGrads gs (mkPState (with_grad a p) σ tr)
         = Ok (tt, mkPState (with_grad (foldl madd a gs) p) σ (tr ++ tr')) ∧
         guarded tr' = true.
Proof.
  intros Hrg. revert a tr.
  induction gs as [|g gs IH]; intros a tr Hall.
  - exists []. by rewrite app_nil_r.
  - inversion Hall as [|? ? Hd Hall']; subst.
    cbn [PropagateGrads foldl].
    destruct (IH (madd a g) (tr ++ [EvLock; EvRead FGrad; EvRead FGrad; EvWrite FGrad; EvUnlock]))
      as (tr' & Hrun & Hguard).
    { eapply Forall_impl; [exact Hall'|]. intros g'. by rewrite SameDims_madd. }
    exists ([EvLock; EvRead FGrad; EvRead FGrad; EvWrite FGrad; EvUnlock] ++ tr').
    split; [|exact Hguard].
    unfold mbind at 1, M_bind at 1.
    rewrite (PropagateGrad_next (with_grad a p) σ tr a g); [|done|done|done].
    replace (with_grad (madd a g) (with_grad a p)) with (with_grad (madd a g) p) by reflexivity.
    rewrite Hrun. by rewrite <- app_assoc.
Qed.

(** Swapping two summands: what makes the accumulated sum independent of the
    order, when the addition of the elements is associative and commutative. *)
Lemma madd_swap (z a b : Dense) :
  (∀ x y w : F, fadd (fadd x y) w = fadd x (fadd y w)) →
  (∀ x y : F, fadd x y = fadd y x) →
  madd (madd z a) b = madd (madd z b) a.
Proof.
  intros Hassoc Hcomm. unfold madd. cbn. f_equal.
  generalize (mat.Data z), (mat.Data a), (mat.Data b).
  intros l. induction l as [|x l IH]; intros [|y la] [|w lb]; cbn; try done.
  f_equal; [|apply IH].
  by rewrite Hassoc, (Hcomm y w), <- Hassoc.
Qed.

Lemma foldl_madd_Permutation (gs gs' : list Dense) (z : Dense) :
  (∀ x y w : F, fadd (fadd x y) w = fadd x (fadd y w)) →
  (∀ x y : F, fadd x y = fadd y x) →
  gs ≡ₚ gs' →
  foldl madd z gs = foldl madd z gs'.
Proof.
  intros Hassoc Hcomm Hperm. revert z.
  induction Hperm as [|g l l' _ IH|g g' l|l1 l2 l3 _ IH1 _ IH2]; intros z; cbn.
  - done.
  - apply IH.
  - by rewrite (madd_swap z g' g).
  - by rewrite IH1.
Qed.

Lemma PropagateGrads_noop (gs : list Dense) (p : param) (σ : kvdb.stores) (tr : list event) :
  requiresGrad p = false →
  PropagateGrads gs (mkPState p σ tr) = Ok (tt, mkPState p σ tr).
Proof.
  intros Hrg. induction gs as [|g gs IH]; [done|].
  cbn [PropagateGrads]. unfold mbind at 1, M_bind at 1.
  by rewrite PropagateGrad_noop.
Qed.

(** C4, as the code has it. [PropagateGrad(g)] is a no-op when [requiresGrad]
    is false. Otherwise the first call allocates a zero gradient with the
    dimensions of the value and adds [g] into it, and every call adds its
    argument into the gradient, under the lock: after the calls [g], [gs] the
    gradient is [((0 + g) + g1) + ... + gk], the sum accumulated in the order
    of the calls, with the dimensions of the value, and [HasGrad] is true.
    The sum does not depend on the order of the calls when the addition of
    the elements is associative and commutative. *)
Theorem PropagateGrad_accumulates_in_call_order
    (p : param) (σ : kvdb.stores) (tr : list event) (v g : Dense) (gs gs' : list Dense) :
  (requiresGrad p = false →
     PropagateGrad g (mkPState p σ tr) = Ok (tt, mkPState p σ tr) ∧
     PropagateGrads (g :: gs) (mkPState p σ tr) = Ok (tt, mkPState p σ tr)) ∧
  (requiresGrad p = true → grad p = None → value p = Some v →
   Forall (λ g', mat.SameDims v g' = true) (g :: gs) →
     (∃ s1, PropagateGrad g (mkPState p σ tr) = Ok (tt, s1) ∧
        self s1 = with_grad (madd (mat.GetEmptyDenseWorkspace fzero (mat.Rows v) (mat.Columns v)) g) p) ∧
     (∃ s', PropagateGrads (g :: gs) (mkPState p σ tr) = Ok (tt, s') ∧
        self s' = with_grad (accumulated v (g :: gs)) p ∧
        returns Grad s' = Some (Some (accumulated v (g :: gs))) ∧
        returns HasGrad s' = Some true ∧
        dbs s' = σ ∧
        guarded (drop (length tr) (trace s')) = true) ∧
     mat.Dims (accumulated v (g :: gs)) = mat.Dims v ∧
     mat.Data (mat.GetEmptyDenseWorkspace fzero (mat.Rows v) (mat.Columns v))
       = replicate (Z.to_nat (mat.Rows v * mat.Columns v)) fzero) ∧
  ((∀ x y w : F, fadd (fadd x y) w = fadd x (fadd y w)) →
   (∀ x y : F, fadd x y = fadd y x) →
   g :: gs ≡ₚ gs' →
     accumulated v (g :: gs) = accumulated v gs').
Proof.
  split; [|split].
  - intros Hrg. split; [by apply PropagateGrad_noop|by apply PropagateGrads_noop].
  - intros Hrg Hg Hv Hall. inversion Hall as [|? ? Hd Hall']; subst.
    pose proof (PropagateGrad_first p σ tr v g Hrg Hg Hv Hd) as Hfirst.
    split; [eexists; split; [exact Hfirst|done]|].
    split; [|split; [unfold accumulated; by rewrite foldl_madd_dims|done]].
    set (z := mat.GetEmptyDenseWorkspace fzero (mat.Rows v) (mat.Columns v)) in *.
    destruct (PropagateGrads_from gs p σ
                (tr ++ [EvLock; EvRead FGrad; EvRead FValue; EvWrite FGrad;
                        EvRead FGrad; EvWrite FGrad; EvUnlock]) (madd z g) Hrg)
      as (tr' & Hrun & Hguard).
    { eapply Forall_impl; [exact Hall'|]. intros g'. by rewrite SameDims_madd. }
    eexists. split.
    { cbn [PropagateGrads]. unfold mbind at 1, M_bind at 1.
      rewrite Hfirst. exact Hrun. }
    repeat split.
    cbn. rewrite <- app_assoc, drop_app_length. exact Hguard.
  - intros Hassoc Hcomm Hperm. by apply foldl_madd_Permutation.
Qed.

(** *** The has-gradient flag *)

Lemma apply_options_grad (opts : list ParamOption) (p : param) :
  hasGrad (foldl apply_option p opts) = hasGrad p ∧
  grad (foldl apply_option p opts) = grad p.
Proof.
  revert p. induction opts as [|o opts IH]; intros p; [done|].
  cbn [foldl]. destruct (IH (apply_option p o)) as [-> ->]. by destruct o.
Qed.

Lemma NewParam_no_grad (v : option Dense) (opts : list ParamOption) :
  hasGrad (NewParam v opts) = false ∧ grad (NewParam v opts) = None.
Proof. unfold NewParam. by destruct (apply_options_grad opts (mkParam "" Undefined v None None false true None)) as [-> ->]. Qed.

(** A call other than [PropagateGrad] and [ZeroGrad] leaves the gradient and
    the flag as they are; these two set them together. *)
Lemma exec_grad_flag (c : call) (s s' : pstate) :
  exec c s = Ok (tt, s') →
  grad_flag_agrees (self s) → grad_flag_agrees (self s').
Proof.
  unfold grad_flag_agrees. destruct s as [p σ tr]. destruct p.
  destruct c; cbn [exec]; intros Hex Hinv;
    unfold void, Name, SetName, Type_, SetType, Value, ReplaceValue, ScalarValue,
      Grad, PropagateGrad, HasGrad, GetRequiresGrad, SetRequiresGrad, ZeroGrad,
      ApplyDelta, GetPayload, SetPayload, ClearPayload, UnmarshalBinary,
      Deserialize, updateStorage_if_backed, updateStorage, Serialize,
      fatal_on_errM, fatal_on_err in Hex;
    step_M;
    repeat first [progress simplify_eq/= | case_match]; try done.
Qed.

Lemma reachable_grad_flag (s : pstate) : reachable s → grad_flag_agrees (self s).
Proof.
  induction 1 as [v opts σ|c s s' _ IH Hex|s σ _ IH].
  - unfold grad_flag_agrees. cbn. destruct (NewParam_no_grad v opts) as [-> ->]. done.
  - by eapply exec_grad_flag.
  - exact IH.
Qed.

(** C9. In every state a parameter reaches, [HasGrad()] is true exactly when
    [Grad()] is not nil. A new parameter has (false, nil); a call of
    [PropagateGrad] that gets past the [requiresGrad] test and returns leaves
    both set; [ZeroGrad] returns and leaves both reset. *)
Theorem HasGrad_iff_Grad_not_nil (s : pstate) :
  reachable s →
  (∃ b g, returns HasGrad s = Some b ∧ returns Grad s = Some g ∧
          (b = true ↔ g ≠ None)) ∧
  (∀ v opts σ,
     returns HasGrad (mkPState (NewParam v opts) σ []) = Some false ∧
     returns Grad (mkPState (NewParam v opts) σ []) = Some None) ∧
  (∀ g s', requiresGrad (self s) = true → PropagateGrad g s = Ok (tt, s') →
     returns HasGrad s' = Some true ∧ ∃ a, returns Grad s' = Some (Some a)) ∧
  (∃ s', ZeroGrad s = Ok (tt, s') ∧
     returns HasGrad s' = Some false ∧ returns Grad s' = Some None).
Proof.
  intros Hreach. pose proof (reachable_grad_flag s Hreach) as Hinv.
  unfold grad_flag_agrees in Hinv.
  split; [|split; [|split]].
  - exists (hasGrad (self s)), (grad (self s)). by repeat split; try apply Hinv.
  - intros v opts σ. unfold returns, HasGrad, Grad. step_M.
    by destruct (NewParam_no_grad v opts) as [-> ->].
  - intros g s' Hrg Hrun. destruct s as [p σ tr]. destruct p. cbn in Hrg. subst.
    unfold PropagateGrad in Hrun. step_M.
    repeat first [progress simplify_eq/= | case_match]; eauto.
  - destruct s as [p σ tr]. destruct p as [n t v [a|] pl hg rg st]; cbn in Hinv.
    + eexists. split; [unfold ZeroGrad; step_M; reflexivity|done].
    + eexists. split; [unfold ZeroGrad; step_M; reflexivity|].
      cbn. split; [|done]. f_equal. destruct hg; [|done]. by destruct Hinv as [Hinv _]; destruct Hinv.
Qed.

(** *** The binary format read back *)

Lemma header_roundtrip (l n : Z) (rest : list byte) :
  - 2 ^ 63 ≤ l < 2 ^ 63 → - 2 ^ 63 ≤ n < 2 ^ 63 →
  header_unmarshalBinaryFrom
    ((binary.PutInt64 (binary.int64 l) ++ binary.PutInt64 (binary.int64 n)) ++ rest)
  = Ok (mkHeader l n, rest).
Proof.
  intros Hl Hn. rewrite !binary.int64_small by done.
  unfold header_unmarshalBinaryFrom.
  rewrite binary.ReadFull_app
    by (rewrite length_app; unfold binary.PutInt64; by rewrite !binary.length_PutUint).
  cbn [mbind result_bind]. unfold header_unmarshalBinary.
  rewrite length_app. unfold binary.PutInt64 at 1 2. rewrite !binary.length_PutUint.
  cbn [Nat.add Nat.ltb Nat.leb headerSize].
  rewrite take_app_length' by (unfold binary.PutInt64; by rewrite binary.length_PutUint).
  rewrite drop_app_length' by (unfold binary.PutInt64; by rewrite binary.length_PutUint).
  rewrite take_ge by (unfold binary.PutInt64; by rewrite binary.length_PutUint).
  by rewrite !binary.Int64_PutInt64.
Qed.

Lemma slice_roundtrip (ms : list Dense) :
  Forall roundtrips ms →
  ∃ bs, MarshalBinarySlice ms = Ok bs ∧
        ∀ rest, NewUnmarshalBinarySlice (length ms) (bs ++ rest) = Ok (ms, rest).
Proof.
  induction 1 as [|m ms (b & Hb & Hback) _ (bs & Hbs & Hbacks)].
  - by exists [].
  - exists (b ++ bs). split.
    + cbn [MarshalBinarySlice]. rewrite Hb. cbn. by rewrite Hbs.
    + intros rest. cbn [NewUnmarshalBinarySlice length].
      rewrite <- app_assoc, Hback. cbn. by rewrite Hbacks.
Qed.

Lemma Payload_roundtrip (supp : Payload) :
  payload_ok supp →
  ∃ bs, PayloadMarshalBinaryTo (Some supp) = Ok bs ∧
        ∀ rest, NewPayloadUnmarshalBinaryFrom (bs ++ rest) = Ok (supp, rest).
Proof.
  intros (Hl & Hn & Hdata). destruct (slice_roundtrip _ Hdata) as (bs & Hbs & Hback).
  exists ((binary.PutInt64 (binary.int64 (Label supp))
            ++ binary.PutInt64 (binary.int64 (Z.of_nat (length (Data supp))))) ++ bs).
  split.
  - unfold PayloadMarshalBinaryTo, header_marshalBinaryTo.
    unfold mbind, result_bind. by rewrite Hbs.
  - intros rest. unfold NewPayloadUnmarshalBinaryFrom.
    rewrite <- app_assoc, header_roundtrip by lia.
    unfold mbind, result_bind. cbn [header_Size header_Label].
    case_match eqn:Hneg; [lia|].
    rewrite Nat2Z.id, Hback. by destruct supp.
Qed.

Lemma paramData_roundtrip (d : Dense) (supp : Payload) :
  roundtrips d → payload_ok supp →
  ∃ bs, paramDataMarshalBinaryTo (mkParamData d (Some supp)) = Ok bs ∧
        paramDataUnmarshalBinaryFrom bs = Ok (mkParamData d (Some supp), []).
Proof.
  intros (b & Hb & Hback) Hsupp.
  destruct (Payload_roundtrip supp Hsupp) as (bs & Hbs & Hbacks).
  exists (b ++ bs). split.
  - unfold paramDataMarshalBinaryTo. unfold mbind, result_bind.
    cbn [pdValue pdPayload]. by rewrite Hb, Hbs.
  - unfold paramDataUnmarshalBinaryFrom. unfold mbind, result_bind.
    rewrite Hback. rewrite <- (app_nil_r bs), Hbacks. done.
Qed.

(** A parameter with a payload, serialized and read back into any parameter:
    the value and the payload are the ones written. *)
Lemma Serialize_Deserialize (p q : param) (σ σ' : kvdb.stores) (tr tr' : list event)
    (d : Dense) (supp : Payload) :
  value p = Some d → payload p = Some supp →
  roundtrips d → payload_ok supp →
  ∃ bs, Serialize (mkPState p σ tr)
        = Ok (bs, mkPState p σ (tr ++ [EvRead FValue; EvRead FPayload])) ∧
        Deserialize bs (mkPState q σ' tr')
        = Ok (None, mkPState (set_payload (Some supp) (set_value (Some d) q)) σ'
                      (tr' ++ [EvWrite FValue; EvWrite FPayload])).
Proof.
  intros Hv Hp Hd Hsupp.
  destruct (paramData_roundtrip d supp Hd Hsupp) as (bs & Hbs & Hback).
  exists bs. split.
  - destruct p; cbn in *; subst. unfold Serialize. step_M.
    rewrite Hbs. by rewrite <- app_assoc.
  - unfold Deserialize. rewrite Hback. step_M. by rewrite <- app_assoc.
Qed.

(** Where the payload is nil, [Serialize] writes the value and then panics
    in [PayloadMarshalBinaryTo]. *)
Lemma Serialize_nil_payload (p : param) (σ : kvdb.stores) (tr : list event)
    (d : Dense) (bs : list byte) :
  value p = Some d → payload p = None → MarshalBinaryTo d = Ok bs →
  Serialize (mkPState p σ tr)
  = Panic "runtime error: invalid memory address or nil pointer dereference".
Proof.
  intros Hv Hp Hbs. destruct p; cbn in *; subst.
  unfold Serialize. step_M. unfold paramDataMarshalBinaryTo. cbn.
  by rewrite Hbs.
Qed.

(** The same on the way to the store: a parameter backed by a store cannot
    have its value replaced or its payload cleared. *)
Lemma ReplaceValue_backed_panics (p : param) (σ : kvdb.stores) (tr : list event)
    (db : kvdb.KeyValueDB) (d : Dense) (bs : list byte) :
  storage p = Some db → MarshalBinaryTo d = Ok bs →
  ReplaceValue (Some d) (mkPState p σ tr)
  = Panic "runtime error: invalid memory address or nil pointer dereference".
Proof.
  intros Hst Hbs. destruct p; cbn in *; subst.
  unfold ReplaceValue, updateStorage_if_backed, updateStorage, Serialize.
  step_M. unfold paramDataMarshalBinaryTo. cbn. by rewrite Hbs.
Qed.

(** *** The lock *)

(** C8, as the code has it. [ReplaceValue], [PropagateGrad], [ApplyDelta],
    [SetPayload], [ClearPayload] and the read [Payload()] touch the value, the
    gradient and the payload only between [Lock] and [Unlock]. [ZeroGrad]
    writes under the lock, after a test of [r.grad] outside it. [Value()] and
    [Grad()] read their field without taking the lock, and [Deserialize]
    assigns the value and the payload without it. *)
Theorem lock_held_by_mutations_not_by_Value_and_Grad (p : param) (σ : kvdb.stores) :
  (∀ v evs, events_of (ReplaceValue v) p σ = Some evs → guarded evs = true) ∧
  (∀ g evs, events_of (PropagateGrad g) p σ = Some evs → guarded evs = true) ∧
  (∀ d evs, events_of (ApplyDelta d) p σ = Some evs → guarded evs = true) ∧
  (∀ supp evs, events_of (SetPayload supp) p σ = Some evs → guarded evs = true) ∧
  (∀ evs, events_of ClearPayload p σ = Some evs → guarded evs = true) ∧
  events_of GetPayload p σ = Some [EvLock; EvRead FPayload; EvUnlock] ∧
  (∃ evs, events_of ZeroGrad p σ = Some evs ∧ writes_guarded evs = true) ∧
  events_of Value p σ = Some [EvRead FValue] ∧
  events_of Grad p σ = Some [EvRead FGrad] ∧
  (∀ r evs, events_of (Deserialize r) p σ = Some evs →
     evs = [] ∨ evs = [EvWrite FValue; EvWrite FPayload]).
Proof.
  destruct p.
  repeat split; try done; intros;
    try (unfold events_of, ReplaceValue, PropagateGrad, ApplyDelta, SetPayload,
           ClearPayload, ZeroGrad, Deserialize, Value, updateStorage_if_backed,
           updateStorage, Serialize, fatal_on_errM, fatal_on_err in *;
         step_M;
         repeat first [progress simplify_eq/= | case_match]; by eauto).
Qed.

(** *** More on the binary format and on the methods *)

(** The difference [SubInPlace] leaves in its receiver. *)
Definition msub (a b : Dense) : Dense :=
  mat.mkDense (mat.Rows a) (mat.Columns a) (zip_with fsub (mat.Data a) (mat.Data b)).

(** The value of the last [RequiresGrad] option, and the store of the last
    [SetStorage] option, of a list of options. *)
Definition last_RequiresGrad (opts : list ParamOption) : option bool :=
  last (omap (λ o, match o with RequiresGrad b => Some b | SetStorage _ => None end) opts).

Definition last_SetStorage (opts : list ParamOption) : option kvdb.KeyValueDB :=
  last (omap (λ o, match o with SetStorage db => Some db | RequiresGrad _ => None end) opts).


(** Where decoding returns an error, [Deserialize] returns it and leaves the
    receiver, the stores and the trace as they were: when the matrix decoder
    fails, and when fewer than sixteen bytes follow the value. *)
Theorem Deserialize_error_leaves_receiver (s : pstate) (r : list byte) :
  (∀ e, NewUnmarshalBinaryFrom r = Err e → Deserialize r s = Ok (Some e, s)) ∧
  (∀ v r1, NewUnmarshalBinaryFrom r = Ok (v, r1) → (length r1 < headerSize)%nat →
     Deserialize r s
     = Ok (Some (if (length r1 =? 0)%nat then "EOF" else "unexpected EOF"), s)).
Proof.
  split.
  - intros e He. unfold Deserialize, paramDataUnmarshalBinaryFrom.
    rewrite He. reflexivity.
  - intros v r1 Hv Hr1. unfold Deserialize, paramDataUnmarshalBinaryFrom.
    rewrite Hv. unfold mbind at 1, result_bind at 1.
    unfold NewPayloadUnmarshalBinaryFrom, header_unmarshalBinaryFrom, binary.ReadFull.
    replace (headerSize <=? length r1)%nat with false
      by (symmetry; apply Nat.leb_gt; lia).
    reflexivity.
Qed.

(** A header that announces a negative number of matrices makes
    [Deserialize] panic in [make], where a decoding error was due. *)
Theorem Deserialize_negative_count_panics (s : pstate) (r rest : list byte)
    (v : Dense) (l n : Z) :
  NewUnmarshalBinaryFrom r
  = Ok (v, (binary.PutInt64 l ++ binary.PutInt64 n) ++ rest) →
  - 2 ^ 63 ≤ l < 2 ^ 63 → - 2 ^ 63 ≤ n < 0 →
  Deserialize r s = Panic "runtime error: makeslice: len out of range".
Proof.
  intros Hv Hl Hn. unfold Deserialize, paramDataUnmarshalBinaryFrom.
  rewrite Hv. unfold mbind at 1, result_bind at 1.
  unfold NewPayloadUnmarshalBinaryFrom.
  replace (binary.PutInt64 l) with (binary.PutInt64 (binary.int64 l))
    by (by rewrite binary.int64_small).
  replace (binary.PutInt64 n) with (binary.PutInt64 (binary.int64 n))
    by (rewrite binary.int64_small; [done|lia]).
  rewrite header_roundtrip by lia.
  unfold mbind, result_bind. cbn [header_Size].
  replace (n <? 0) with true by (symmetry; apply Z.ltb_lt; lia).
  reflexivity.
Qed.

(** [ApplyDelta] on a parameter that is backed by a store. *)
Lemma ApplyDelta_backed (p : param) (σ : kvdb.stores) (tr : list event)
    (d delta : Dense) (db : kvdb.KeyValueDB) (t : gmap string (list byte))
    (supp : Payload) (bs : list byte) :
  value p = Some d → mat.SameDims d delta = true →
  storage p = Some db → σ !! db = Some t → payload p = Some supp →
  paramDataMarshalBinaryTo (mkParamData (msub d delta) (Some supp)) = Ok bs →
  ∃ s', ApplyDelta delta (mkPState p σ tr) = Ok (tt, s') ∧
        self s' = set_value (Some (msub d delta)) p ∧
        dbs s' = <[db := <[name p := bs]> t]> σ ∧
        guarded (drop (length tr) (trace s')) = true.
Proof.
  intros Hv Hd Hst Hdb Hp Hbs. destruct p; cbn in *; subst.
  unfold ApplyDelta, Value, updateStorage_if_backed, updateStorage, Serialize.
  step_M. unfold mat.SubInPlace. rewrite Hd. cbn.
  unfold msub in Hbs. cbn in Hbs. rewrite Hbs. cbn.
  unfold kvdb.Put. rewrite Hdb. cbn.
  eexists. split; [reflexivity|]. cbn. repeat split.
  rewrite <- !app_assoc. by rewrite drop_app_length.
Qed.

(** [ApplyDelta] subtracts the delta from the value in place, under the lock,
    and touches neither the gradient nor the payload. On a parameter that is
    not backed by a store the stores stay as they are; on one that is, with a
    payload, the new serialization replaces the entry under the parameter's
    name in its store. *)
Theorem ApplyDelta_subtracts_and_writes_through (p : param) (σ : kvdb.stores)
    (tr : list event) (d delta : Dense) :
  value p = Some d → mat.SameDims d delta = true →
  (storage p = None →
     ApplyDelta delta (mkPState p σ tr)
     = Ok (tt, mkPState (set_value (Some (msub d delta)) p) σ
                 (tr ++ [EvLock; EvRead FValue; EvWrite FValue; EvUnlock]))) ∧
  (∀ db t supp bs,
     storage p = Some db → σ !! db = Some t → payload p = Some supp →
     paramDataMarshalBinaryTo (mkParamData (msub d delta) (Some supp)) = Ok bs →
     ∃ s', ApplyDelta delta (mkPState p σ tr) = Ok (tt, s') ∧
           self s' = set_value (Some (msub d delta)) p ∧
           dbs s' = <[db := <[name p := bs]> t]> σ ∧
           guarded (drop (length tr) (trace s')) = true).
Proof.
  intros Hv Hd. split.
  - intros Hst. destruct p; cbn in *; subst.
    unfold ApplyDelta, Value, updateStorage_if_backed. step_M.
    unfold mat.SubInPlace. rewrite Hd. cbn. by rewrite <- !app_assoc.
  - intros db t supp bs Hst Hdb Hp Hbs. by eapply ApplyDelta_backed.
Qed.

(** On a parameter that is backed by a store and has a value, [SetPayload]
    with a payload writes the parameter through to the store under its name;
    with nil, as [ClearPayload], it panics when it serializes the nil
    payload. *)
Theorem SetPayload_backed_writes_through_or_panics (p : param) (σ : kvdb.stores)
    (tr : list event) (d : Dense) (db : kvdb.KeyValueDB) (t : gmap string (list byte)) :
  value p = Some d → storage p = Some db → σ !! db = Some t →
  (∀ supp bs,
     paramDataMarshalBinaryTo (mkParamData d (Some supp)) = Ok bs →
     SetPayload (Some supp) (mkPState p σ tr)
     = Ok (tt, mkPState (set_payload (Some supp) p) (<[db := <[name p := bs]> t]> σ)
                 (tr ++ [EvLock; EvWrite FPayload; EvRead FValue; EvRead FPayload;
                         EvUnlock]))) ∧
  (∀ bs, MarshalBinaryTo d = Ok bs →
     SetPayload None (mkPState p σ tr)
     = Panic "runtime error: invalid memory address or nil pointer dereference" ∧
     ClearPayload (mkPState p σ tr)
     = Panic "runtime error: invalid memory address or nil pointer dereference").
Proof.
  intros Hv Hst Hdb. destruct p; cbn in *; subst. split.
  - intros supp bs Hbs.
    unfold SetPayload, updateStorage_if_backed, updateStorage, Serialize.
    step_M. rewrite Hbs. cbn. unfold kvdb.Put. rewrite Hdb. cbn.
    by rewrite <- !app_assoc.
  - intros bs Hbs.
    unfold SetPayload, ClearPayload, updateStorage_if_backed, updateStorage, Serialize.
    step_M. unfold paramDataMarshalBinaryTo. cbn. by rewrite Hbs.
Qed.

(** [ZeroGrad] on a parameter without a gradient does nothing and takes no
    lock; on one with a gradient it drops it, and the next [PropagateGrad]
    starts again from zero: the gradient is [0 + g], whatever had been
    accumulated. *)
Theorem ZeroGrad_restarts_accumulation (p : param) (σ : kvdb.stores)
    (tr : list event) (v g : Dense) :
  requiresGrad p = true → value p = Some v → mat.SameDims v g = true →
  (grad p = None →
     ZeroGrad (mkPState p σ tr) = Ok (tt, mkPState p σ (tr ++ [EvRead FGrad]))) ∧
  (∀ a, grad p = Some a →
     ∃ s', (ZeroGrad;; PropagateGrad g) (mkPState p σ tr) = Ok (tt, s') ∧
           self s' = with_grad (accumulated v [g]) p ∧
           dbs s' = σ).
Proof.
  intros Hrg Hv Hd. split.
  - intros Hg. destruct p; cbn in *; subst. unfold ZeroGrad. step_M. reflexivity.
  - intros a Hg. destruct p; cbn in *; subst.
    unfold ZeroGrad, PropagateGrad. step_M. unfold mat.AddInPlace.
    change (mat.SameDims (mat.GetEmptyDenseWorkspace fzero (mat.Rows v) (mat.Columns v)) g)
      with (mat.SameDims v g).
    rewrite Hd. cbn. eexists. split; [reflexivity|]. done.
Qed.

(** [NewParam] applies its options in order: the last option of a kind
    decides, [requiresGrad] is true and [storage] nil where none is given, and
    no option touches the value, the name, the type, the gradient or the
    payload. *)
Theorem NewParam_options (v : option Dense) (opts : list ParamOption) :
  value (NewParam v opts) = v ∧
  name (NewParam v opts) = "" ∧
  pType (NewParam v opts) = Undefined ∧
  grad (NewParam v opts) = None ∧
  hasGrad (NewParam v opts) = false ∧
  payload (NewParam v opts) = None ∧
  requiresGrad (NewParam v opts) = default true (last_RequiresGrad opts) ∧
  storage (NewParam v opts) = last_SetStorage opts.
Proof.
  unfold NewParam, last_RequiresGrad, last_SetStorage.
  induction opts as [|o opts IH] using rev_ind; [done|].
  rewrite foldl_snoc, omap_app, omap_app.
  destruct IH as (Hv & Hn & Ht & Hg & Hh & Hp & Hr & Hs).
  destruct o; cbn; rewrite ?app_nil_r, ?last_snoc; cbn; done.
Qed.

End Nn.

(** *** The types of parameters *)

Section Types.

(** [strings.ToLower], of Go's library. *)
Variable ToLower : string → string.

(** [ParamsType.String] *)
Definition ParamsType_String (t : ParamsType) : string :=
  match t with
  | Weights => "weights"
  | Biases => "biases"
  | Undefined => "undefined"
  end.

(** [pts] *)
Definition pts : list ParamsType := [Weights; Biases; Undefined].

(** The loop of [ToType] over [pts]. *)
Fixpoint ToType_loop (items : list ParamsType) (s : string) : ParamsType :=
  match items with
  | [] => Undefined
  | item :: items' =>
    if bool_decide (ParamsType_String item = ToLower s) then item
    else ToType_loop items' s
  end.

(** [ToType] *)
Definition ToType (s : string) : ParamsType := ToType_loop pts s.

(** [ToType] reads a name whatever its case: it gives back the type of a
    name that [String] wrote, depends on its argument through [ToLower]
    alone, and is [Undefined] for every string that is neither "weights" nor
    "biases" in lower case. *)
Theorem ToType_reads_names_in_any_case :
  (∀ t, ToLower (ParamsType_String t) = ParamsType_String t →
        ToType (ParamsType_String t) = t) ∧
  (∀ s s', ToLower s = ToLower s' → ToType s = ToType s') ∧
  (∀ s t, ToLower s = ParamsType_String t → ToType s = t) ∧
  (∀ s, ToLower s ≠ "weights" → ToLower s ≠ "biases" → ToType s = Undefined).
Proof.
  assert (∀ s t, ToLower s = ParamsType_String t → ToType s = t) as Hname.
  { intros s t Hs. unfold ToType, pts, ToType_loop. rewrite Hs.
    destruct t; cbn; repeat case_bool_decide; done. }
  split; [intros t Ht; by apply Hname|].
  split; [intros s s' Hs; unfold ToType, pts, ToType_loop; by rewrite Hs|].
  split; [exact Hname|].
  intros s Hw Hb. unfold ToType, pts, ToType_loop. cbn.
  repeat case_bool_decide; congruence.
Qed.

End Types.

(** *** Runs on concrete parameters *)

Definition m12 : mat.Dense Z := mat.mkDense 1 2 [3; 4].
Definition g12 : mat.Dense Z := mat.mkDense 1 2 [10; 20].
Definition h12 : mat.Dense Z := mat.mkDense 1 2 [5; 6].

(** A new parameter with value [m12], not backed by a store, no store open. *)
Definition fresh12 : pstate := mkPState (NewParam (Some m12) []) ∅ [].

(** C1 fails for the gradient: after a gradient has been accumulated,
    [ReplaceValue] returns and [Grad()] still gives that gradient, and
    [HasGrad()] is still true. *)
Lemma ReplaceValue_keeps_gradient :
  returns (PropagateGrad 0 Z.add g12;;
           ReplaceValue exact.MarshalBinaryTo (Some h12);;
           Grad) fresh12
  = Some (Some g12) ∧
  returns (PropagateGrad 0 Z.add g12;;
           ReplaceValue exact.MarshalBinaryTo (Some h12);;
           HasGrad) fresh12
  = Some true.
Proof. split; vm_compute; reflexivity. Qed.

(** [ReplaceValue] on a new parameter that is not backed by a store. *)
Lemma ReplaceValue_swaps_value_clears_payload_witness :
  ∃ s', ReplaceValue exact.MarshalBinaryTo (Some h12) fresh12 = Ok (tt, s') ∧
        returns Value s' = Some (Some h12) ∧
        returns GetPayload s' = Some None.
Proof.
  destruct (ReplaceValue_swaps_value_clears_payload exact.MarshalBinaryTo
              (NewParam (Some m12) []) ∅ [] (Some h12) eq_refl)
    as (s' & Hrun & Hv & Hp & _).
  exists s'. split; [exact Hrun|]. split; [exact Hv|exact Hp].
Defined.

(** A 1x1 matrix of [float64], as Rocq's primitive binary64 floats. *)
Definition scalar64 (x : float) : mat.Dense float := mat.mkDense 1 1 [x].

(** C4 fails for the order of the calls: with [float64] elements, the three
    gradients 1e16, 1 and -1e16 accumulate to 0 in this order and to 1 when
    the last two calls are swapped (1e16 + 1 rounds to 1e16). *)
Lemma PropagateGrad_order_matters_for_float64 :
  returns (PropagateGrads 0%float PrimFloat.add
             [scalar64 1e16; scalar64 1; scalar64 (-1e16)];; Grad)
          (mkPState (NewParam (Some (scalar64 0)) []) ∅ [])
  = Some (Some (scalar64 0)) ∧
  returns (PropagateGrads 0%float PrimFloat.add
             [scalar64 1e16; scalar64 (-1e16); scalar64 1];; Grad)
          (mkPState (NewParam (Some (scalar64 0)) []) ∅ [])
  = Some (Some (scalar64 1)) ∧
  scalar64 0 ≠ scalar64 1.
Proof.
  split; [vm_compute; reflexivity|]. split; [vm_compute; reflexivity|].
  intros Heq.
  apply (f_equal (λ m, match mat.Data m with
                       | [x] => PrimFloat.is_zero x
                       | _ => false
                       end)) in Heq.
  vm_compute in Heq. discriminate.
Qed.

(** With integer elements: [10; 20] and [5; 6] accumulate to [15; 26], in
    either order. *)
Lemma PropagateGrad_accumulates_in_call_order_witness :
  (∃ s', PropagateGrads 0 Z.add [g12; h12] fresh12 = Ok (tt, s') ∧
         returns Grad s' = Some (Some (mat.mkDense 1 2 [15; 26]))) ∧
  accumulated 0 Z.add m12 [g12; h12] = accumulated 0 Z.add m12 [h12; g12].
Proof.
  destruct (PropagateGrad_accumulates_in_call_order 0 Z.add
              (NewParam (Some m12) []) ∅ [] m12 g12 [h12] [h12; g12])
    as (_ & Hacc & Hperm).
  split.
  - destruct (Hacc eq_refl eq_refl eq_refl) as (_ & (s' & Hrun & _ & Hgrad & _) & _).
    { repeat constructor. }
    exists s'. split; [exact Hrun|exact Hgrad].
  - apply Hperm; [intros; lia|intros; lia|apply perm_swap].
Defined.

(** C8 fails for the reads [Value()] and [Grad()]: each reads its field
    with the mutex free. *)
Lemma Value_and_Grad_read_without_lock :
  (∃ evs, events_of Value (NewParam (Some m12) []) ∅ = Some evs ∧ guarded evs = false) ∧
  (∃ evs, events_of Grad (NewParam (Some m12) []) ∅ = Some evs ∧ guarded evs = false).
Proof. split; eexists; (split; [reflexivity|reflexivity]). Qed.

(** The trace of [ReplaceValue] on a new parameter. *)
Lemma lock_held_by_mutations_witness :
  events_of (ReplaceValue exact.MarshalBinaryTo (Some h12)) (NewParam (Some m12) []) ∅
  = Some [EvLock; EvWrite FValue; EvWrite FPayload; EvUnlock] ∧
  guarded [EvLock; EvWrite FValue; EvWrite FPayload; EvUnlock] = true.
Proof.
  split; [reflexivity|].
  destruct (lock_held_by_mutations_not_by_Value_and_Grad 0 Z.add Z.sub
              exact.MarshalBinaryTo exact.NewUnmarshalBinaryFrom
              (NewParam (Some m12) []) ∅) as (Hrv & _).
  apply (Hrv (Some h12)). reflexivity.
Defined.

(** A parameter after one [PropagateGrad], and after [ZeroGrad]. *)
Lemma HasGrad_iff_Grad_not_nil_witness :
  ∃ s, reachable 0 Z.add Z.sub exact.MarshalBinaryTo exact.NewUnmarshalBinaryFrom s ∧
       returns HasGrad s = Some true ∧
       returns Grad s = Some (Some g12) ∧
       ∃ s', ZeroGrad s = Ok (tt, s') ∧
             returns HasGrad s' = Some false ∧ returns Grad s' = Some None.
Proof.
  assert (∃ s, PropagateGrad 0 Z.add g12 fresh12 = Ok (tt, s)) as [s Hs].
  { eexists. vm_compute. reflexivity. }
  assert (reachable 0 Z.add Z.sub exact.MarshalBinaryTo exact.NewUnmarshalBinaryFrom s)
    as Hreach.
  { eapply (reachable_call _ _ _ _ _ (CallPropagateGrad g12)); [apply reachable_new|exact Hs]. }
  exists s. split; [exact Hreach|].
  destruct (HasGrad_iff_Grad_not_nil 0 Z.add Z.sub exact.MarshalBinaryTo
              exact.NewUnmarshalBinaryFrom s Hreach) as (_ & _ & _ & Hzero).
  vm_compute in Hs. injection Hs as <-.
  split; [reflexivity|]. split; [reflexivity|]. exact Hzero.
Defined.

(** C2 fails where the payload is absent: a new parameter has a nil payload,
    and serializing it panics instead of writing the header {0, 0}. *)
Lemma Serialize_absent_payload_panics :
  payload (self fresh12) = None ∧
  Serialize exact.MarshalBinaryTo fresh12
  = Panic "runtime error: invalid memory address or nil pointer dereference".
Proof. split; reflexivity. Qed.

(** With the empty payload of [NewEmptySupport] the bytes are the value
    followed by sixteen zero bytes, and they read back. *)
Example Serialize_empty_payload :
  match (SetPayload exact.MarshalBinaryTo (Some NewEmptySupport);;
         Serialize exact.MarshalBinaryTo) fresh12 with
  | Ok (bs, _) =>
    exact.MarshalBinaryTo m12 = Ok (take 32 bs) ∧
    drop 32 bs = replicate 16 Byte.x00 ∧
    match Deserialize exact.NewUnmarshalBinaryFrom bs
            (mkPState (NewParam None []) ∅ []) with
    | Ok (None, s2) =>
      value (self s2) = Some m12 ∧ payload (self s2) = Some NewEmptySupport
    | _ => False
    end
  | _ => False
  end.
Proof. vm_compute. repeat split. Qed.

(** *** More runs on concrete parameters *)

(** The store 0, open and empty. *)
Definition stores0 : kvdb.stores := {[0%nat := ∅]}.

(** A parameter named "w", backed by the store 0, with value [m12] and the
    empty payload. *)
Definition backed12 : param :=
  set_payload (Some NewEmptySupport) (set_name "w" (NewParam (Some m12) [SetStorage 0%nat])).


(** A value with no header after it. *)
Lemma Deserialize_error_leaves_receiver_witness :
  ∃ bs, exact.MarshalBinaryTo m12 = Ok bs ∧
        Deserialize exact.NewUnmarshalBinaryFrom bs fresh12 = Ok (Some "EOF", fresh12).
Proof.
  exists (binary.PutInt64 1 ++ binary.PutInt64 2
          ++ concat (map binary.PutInt64 [3; 4])).
  split; [reflexivity|].
  destruct (Deserialize_error_leaves_receiver exact.NewUnmarshalBinaryFrom fresh12
              (binary.PutInt64 1 ++ binary.PutInt64 2
               ++ concat (map binary.PutInt64 [3; 4]))) as [_ Hshort].
  apply (Hshort m12 []); [vm_compute; reflexivity|unfold headerSize; simpl; lia].
Defined.

(** A value followed by the header {0, -1}. *)
Lemma Deserialize_negative_count_panics_witness :
  Deserialize exact.NewUnmarshalBinaryFrom
    ((binary.PutInt64 1 ++ binary.PutInt64 2 ++ concat (map binary.PutInt64 [3; 4]))
     ++ (binary.PutInt64 0 ++ binary.PutInt64 (-1)) ++ [])
    fresh12
  = Panic "runtime error: makeslice: len out of range".
Proof.
  apply (Deserialize_negative_count_panics exact.NewUnmarshalBinaryFrom fresh12 _ []
           m12 0 (-1)); [vm_compute; reflexivity|lia|lia].
Defined.

Lemma Serialize_Deserialize_witness :
  ∃ bs s1 s2,
    Serialize exact.MarshalBinaryTo (mkPState backed12 stores0 []) = Ok (bs, s1) ∧
    Deserialize exact.NewUnmarshalBinaryFrom bs fresh12 = Ok (None, s2) ∧
    value (self s2) = Some m12 ∧ payload (self s2) = Some NewEmptySupport.
Proof.
  destruct (Serialize_Deserialize exact.MarshalBinaryTo exact.NewUnmarshalBinaryFrom
              backed12 (self fresh12) stores0 ∅ [] [] m12 NewEmptySupport eq_refl eq_refl)
    as (bs & Hser & Hde).
  - eexists. split; [reflexivity|]. intros rest. vm_compute. reflexivity.
  - split; [cbn; lia|]. split; [cbn; lia|]. constructor.
  - exists bs. eexists _, _. split; [exact Hser|]. split; [exact Hde|]. done.
Defined.

Lemma ApplyDelta_subtracts_and_writes_through_witness :
  ∃ s' bs,
    ApplyDelta Z.sub exact.MarshalBinaryTo g12 (mkPState backed12 stores0 []) = Ok (tt, s') ∧
    value (self s') = Some (mat.mkDense 1 2 [-7; -16]) ∧
    dbs s' !! 0%nat = Some (<["w" := bs]> ∅) ∧
    paramDataUnmarshalBinaryFrom exact.NewUnmarshalBinaryFrom bs
    = Ok (mkParamData (mat.mkDense 1 2 [-7; -16]) (Some NewEmptySupport), []).
Proof.
  destruct (ApplyDelta_subtracts_and_writes_through Z.sub exact.MarshalBinaryTo
              backed12 stores0 [] m12 g12 eq_refl eq_refl) as [_ Hbacked].
  destruct (Hbacked 0%nat ∅ NewEmptySupport _ eq_refl eq_refl eq_refl eq_refl)
    as (s' & Hrun & Hself & Hdbs & _).
  eexists s', _. split; [exact Hrun|]. split; [by rewrite Hself|].
  split; [rewrite Hdbs; by rewrite lookup_insert_eq|].
  vm_compute. reflexivity.
Defined.

Lemma SetPayload_backed_witness :
  (∃ s', SetPayload exact.MarshalBinaryTo (Some (mkPayload 5 [g12]))
           (mkPState backed12 stores0 []) = Ok (tt, s') ∧
         payload (self s') = Some (mkPayload 5 [g12])) ∧
  ClearPayload exact.MarshalBinaryTo (mkPState backed12 stores0 [])
  = Panic "runtime error: invalid memory address or nil pointer dereference".
Proof.
  destruct (SetPayload_backed_writes_through_or_panics exact.MarshalBinaryTo
              backed12 stores0 [] m12 0%nat ∅ eq_refl eq_refl eq_refl) as [Hset Hnil].
  split.
  - eexists. split; [apply (Hset (mkPayload 5 [g12]) _ eq_refl)|reflexivity].
  - by destruct (Hnil _ eq_refl) as [_ Hclear].
Defined.

Lemma ZeroGrad_restarts_accumulation_witness :
  ∃ s', (ZeroGrad;; PropagateGrad 0 Z.add h12)
          (mkPState (with_grad g12 (NewParam (Some m12) [])) ∅ []) = Ok (tt, s') ∧
        grad (self s') = Some h12.
Proof.
  destruct (ZeroGrad_restarts_accumulation 0 Z.add (with_grad g12 (NewParam (Some m12) []))
              ∅ [] m12 h12 eq_refl eq_refl eq_refl) as [_ Hrestart].
  destruct (Hrestart g12 eq_refl) as (s' & Hrun & Hself & _).
  exists s'. split; [exact Hrun|]. by rewrite Hself.
Defined.

End nn.

(** ** Package [fn]: the function [Reshape] *)

Module fn.
Section Fn.
Context {F : Type}.

(** [Operand]: what a function needs of its operands. [X] is the state of
    the operand; a method returns its result and the state it leaves. *)
Class Operand (X : Type) : Type := {
  Value : X → result (option (mat.Dense F) * X);
  RequiresGrad : X → result (bool * X);
  PropagateGrad : mat.Dense F → X → result (unit * X)
}.

Context {X : Type} {opX : Operand X}.

(** The struct [Reshape]; [x] holds the operand as it currently is. *)
Record Reshape : Type := mkReshape { x : X; rows : Z; cols : Z }.

(** [NewReshape] *)
Definition NewReshape (x : X) (r c : Z) : Reshape := mkReshape x r c.

(** [Reshape.Forward]. The product [r.rows*r.cols] is a Go [int]: it wraps. *)
Definition Forward (r : Reshape) : result (mat.Dense F * Reshape) :=
  '(v, x1) ← Value (x r);
  match v with
  | None => Panic "runtime error: invalid memory address or nil pointer dereference"
  | Some xv =>
    if negb (mat.Size xv =? binary.int64 (rows r * cols r))
    then Panic "fn: incompatible sizes"
    else
      '(v', x2) ← Value x1;
      match v' with
      | None => Panic "runtime error: invalid memory address or nil pointer dereference"
      | Some xv' =>
        y ← mat.Reshape xv' (rows r) (cols r);
        mret (y, mkReshape x2 (rows r) (cols r))
      end
  end.

(** [Reshape.Backward]. The deferred [mat.ReleaseDense(gx)] gives the buffer
    back once the gradient has been propagated. *)
Definition Backward (r : Reshape) (gy : mat.Dense F) : result Reshape :=
  if negb (mat.Columns gy =? cols r) && negb (mat.Rows gy =? rows r)
  then Panic "fn: matrices with not compatible size"
  else
    '(rg, x1) ← RequiresGrad (x r);
    if rg : bool then
      '(v, x2) ← Value x1;
      match v with
      | None => Panic "runtime error: invalid memory address or nil pointer dereference"
      | Some xv =>
        gx ← mat.Reshape gy (mat.Rows xv) (mat.Columns xv);
        '(_, x3) ← PropagateGrad gx x2;
        mret (mkReshape x3 (rows r) (cols r))
      end
    else mret (mkReshape x1 (rows r) (cols r)).

(** The check [Backward] makes: it panics with its shape message when the
    columns and the rows of [gy] both differ from the configured ones. *)
Lemma Backward_shape_check (r : Reshape) (gy : mat.Dense F) :
  mat.Columns gy ≠ cols r ∧ mat.Rows gy ≠ rows r →
  Backward r gy = Panic "fn: matrices with not compatible size".
Proof.
  intros [Hc Hr]. unfold Backward.
  apply Z.eqb_neq in Hc, Hr. by rewrite Hc, Hr.
Qed.

(** Where the operand asks for no gradient and one of the two dimensions
    agrees, [Backward] returns. *)
Lemma Backward_one_dimension_agrees (r : Reshape) (gy : mat.Dense F) (x1 : X) :
  mat.Columns gy = cols r ∨ mat.Rows gy = rows r →
  RequiresGrad (x r) = Ok (false, x1) →
  Backward r gy = Ok (mkReshape x1 (rows r) (cols r)).
Proof.
  intros Hdim Hrg. unfold Backward.
  replace (negb (mat.Columns gy =? cols r) && negb (mat.Rows gy =? rows r)) with false.
  - by rewrite Hrg.
  - symmetry. apply andb_false_iff. rewrite !negb_false_iff, !Z.eqb_eq. done.
Qed.

End Fn.

(** A parameter is an operand. *)
#[global] Instance param_Operand {F : Type} (fzero : F) (fadd : F → F → F)
  : Operand (F := F) nn.pstate := {
  Value := nn.Value;
  RequiresGrad := nn.GetRequiresGrad;
  PropagateGrad := nn.PropagateGrad fzero fadd
}.

(** A 1x6 parameter that asks for no gradient, reshaped to 2x3. *)
Definition x16 : nn.pstate :=
  nn.mkPState (nn.NewParam (Some (mat.mkDense 1 6 [1; 2; 3; 4; 5; 6]))
                 [nn.RequiresGrad false]) ∅ [].
Definition reshape23 : Reshape (X := nn.pstate) := NewReshape x16 2 3.
Definition gy24 : mat.Dense Z := mat.mkDense 2 4 [1; 1; 1; 1; 1; 1; 1; 1].

(** C3 fails where only one dimension differs: [Forward] has produced a 2x3
    output, the gradient is 2x4, and [Backward] returns without an error. *)
Lemma Reshape_Backward_accepts_wrong_columns :
  (∃ r', Forward (opX := param_Operand 0 Z.add) reshape23
         = Ok (mat.mkDense 2 3 [1; 2; 3; 4; 5; 6], r')) ∧
  mat.Dims gy24 ≠ (2, 3) ∧
  mat.Columns gy24 ≠ cols reshape23 ∧
  is_Ok (Backward (opX := param_Operand 0 Z.add) reshape23 gy24) = true.
Proof.
  split; [eexists; reflexivity|].
  split; [discriminate|]. split; [discriminate|]. reflexivity.
Qed.

(** *** [Reshape] on a parameter *)

(** [Forward] on a parameter whose value has [rows * cols] elements returns
    these elements, in the same row-major order, under the dimensions
    [rows] x [cols], and reads the parameter without changing it; where the
    number of elements differs it panics. *)
Theorem Forward_of_param {F : Type} (fzero : F) (fadd : F → F → F)
    (p : nn.param) (σ : kvdb.stores) (tr : list nn.event) (xv : mat.Dense F) (r c : Z) :
  nn.value p = Some xv →
  (mat.Size xv = r * c → - 2 ^ 63 ≤ r * c < 2 ^ 63 →
     Forward (opX := param_Operand fzero fadd) (NewReshape (nn.mkPState p σ tr) r c)
     = Ok (mat.mkDense r c (mat.Data xv),
           mkReshape (nn.mkPState p σ (tr ++ [nn.EvRead nn.FValue; nn.EvRead nn.FValue])) r c)) ∧
  (mat.Size xv ≠ binary.int64 (r * c) →
     Forward (opX := param_Operand fzero fadd) (NewReshape (nn.mkPState p σ tr) r c)
     = Panic "fn: incompatible sizes").
Proof.
  intros Hv. split.
  - intros Hsize Hrange. destruct p; cbn in *; subst.
    unfold Forward, NewReshape. cbn.
    unfold nn.Value, nn.read_value, nn.emit, nn.get.
    unfold mbind, mret, nn.M_bind, nn.M_ret, result_bind, result_ret. cbn.
    rewrite binary.int64_small by done. rewrite Hsize, Z.eqb_refl. cbn.
    unfold mat.Reshape. rewrite Hsize, Z.eqb_refl.
    by rewrite <- app_assoc.
  - intros Hsize. destruct p; cbn in *; subst.
    unfold Forward, NewReshape. cbn.
    unfold nn.Value, nn.read_value, nn.emit, nn.get.
    unfold mbind, mret, nn.M_bind, nn.M_ret, result_bind, result_ret. cbn.
    apply Z.eqb_neq in Hsize. by rewrite Hsize.
Qed.

(** [Backward] on a parameter, with a gradient that passes the check and has
    as many elements as the value: where the parameter takes gradients and
    has none yet, it receives the elements of [gy] under its own dimensions,
    added to zero; where it takes none, it is left as it is. *)
Theorem Backward_of_param {F : Type} (fzero : F) (fadd : F → F → F)
    (p : nn.param) (σ : kvdb.stores) (tr : list nn.event) (xv gy : mat.Dense F) (r c : Z) :
  nn.value p = Some xv →
  mat.Columns gy = c ∨ mat.Rows gy = r →
  mat.Size gy = mat.Rows xv * mat.Columns xv →
  (nn.requiresGrad p = true → nn.grad p = None →
     ∃ x', Backward (opX := param_Operand fzero fadd) (NewReshape (nn.mkPState p σ tr) r c) gy
           = Ok (mkReshape x' r c) ∧
           nn.self x'
           = nn.with_grad
               (nn.accumulated fzero fadd xv
                  [mat.mkDense (mat.Rows xv) (mat.Columns xv) (mat.Data gy)]) p ∧
           nn.dbs x' = σ) ∧
  (nn.requiresGrad p = false →
     Backward (opX := param_Operand fzero fadd) (NewReshape (nn.mkPState p σ tr) r c) gy
     = Ok (mkReshape (nn.mkPState p σ tr) r c)).
Proof.
  intros Hv Hdim Hsize.
  assert (negb (mat.Columns gy =? c) && negb (mat.Rows gy =? r) = false) as Hcheck.
  { apply andb_false_iff. rewrite !negb_false_iff, !Z.eqb_eq. done. }
  split.
  - intros Hrg Hg. destruct p; cbn in *; subst.
    unfold Backward, NewReshape. cbn [x rows cols]. rewrite Hcheck. cbn.
    unfold nn.GetRequiresGrad, nn.Value, nn.read_value, nn.emit, nn.get.
    unfold mbind, mret, nn.M_bind, nn.M_ret, result_bind, result_ret. cbn.
    unfold mat.Reshape. rewrite Hsize, Z.eqb_refl.
    unfold nn.PropagateGrad, nn.Lock, nn.Unlock, nn.read_grad, nn.read_value,
      nn.write_grad, nn.emit, nn.get, nn.modify, nn.lift.
    unfold mbind, mret, nn.M_bind, nn.M_ret. cbn.
    unfold mat.AddInPlace, mat.SameDims. cbn. rewrite !Z.eqb_refl. cbn.
    eexists. split; [reflexivity|]. done.
  - intros Hrg. destruct p; cbn in *; subst.
    unfold Backward, NewReshape. cbn [x rows cols]. rewrite Hcheck. reflexivity.
Qed.

Definition x16_grad : nn.pstate :=
  nn.mkPState (nn.NewParam (Some (mat.mkDense 1 6 [1; 2; 3; 4; 5; 6])) []) ∅ [].
Definition gy23 : mat.Dense Z := mat.mkDense 2 3 [10; 20; 30; 40; 50; 60].

Lemma Forward_of_param_witness :
  Forward (opX := param_Operand 0 Z.add) (NewReshape x16_grad 2 3)
  = Ok (mat.mkDense 2 3 [1; 2; 3; 4; 5; 6],
        mkReshape (nn.mkPState (nn.self x16_grad) ∅ [nn.EvRead nn.FValue; nn.EvRead nn.FValue])
          2 3).
Proof.
  destruct (Forward_of_param 0 Z.add (nn.self x16_grad) ∅ []
              (mat.mkDense 1 6 [1; 2; 3; 4; 5; 6]) 2 3 eq_refl) as [Hok _].
  apply Hok; [reflexivity|lia].
Defined.

Lemma Backward_of_param_witness :
  ∃ x', Backward (opX := param_Operand 0 Z.add) (NewReshape x16_grad 2 3) gy23
        = Ok (mkReshape x' 2 3) ∧
        nn.grad (nn.self x') = Some (mat.mkDense 1 6 [10; 20; 30; 40; 50; 60]).
Proof.
  destruct (Backward_of_param 0 Z.add (nn.self x16_grad) ∅ []
              (mat.mkDense 1 6 [1; 2; 3; 4; 5; 6]) gy23 2 3 eq_refl) as [Hgrad _];
    [by left|reflexivity|].
  destruct (Hgrad eq_refl eq_refl) as (x' & Hrun & Hself & _).
  exists x'. split; [exact Hrun|]. by rewrite Hself.
Defined.

End fn.

(** ** Package [embeddings]: the store of word embeddings *)

Module embeddings.
Section Embeddings.
Context {F : Type}.
Variable fzero : F.
Variable MarshalBinaryTo : mat.Dense F → result (list byte).
Variable NewUnmarshalBinaryFrom : list byte → result (mat.Dense F * list byte).

(** [strings.ToLower], of Go's library. *)
Variable ToLower : string → string.

Local Abbreviation Dense := (mat.Dense F).
Local Abbreviation param := (nn.param (F := F)).

(** [Config] *)
Record Config : Type := mkConfig {
  Size : Z;
  UseZeroEmbedding : bool;
  DBPath : string;
  ReadOnly : bool;
  ForceNewDB : bool
}.

(** A [*nn.Param]: the place of the parameter in the heap. *)
Abbreviation ref := nat.

(** An [ag.Node]: the place of the node in the graph. *)
Abbreviation Node := nat.

(** [Model]. [UsedEmbeddings] is the working set, [storage] the backing
    store. (The mutex [mu] guards the writes to [UsedEmbeddings]; it is not
    modelled.) *)
Record Model : Type := mkModel {
  config : Config;
  storage : kvdb.KeyValueDB;
  UsedEmbeddings : gmap string ref;
  ZeroEmbedding : ref
}.

(** What the code runs on: the model, the parameters allocated so far (a
    [*nn.Param] is an index into [heap]), the open stores, and the nodes of
    the graph (each wraps the parameter at the given place). *)
Record state : Type := mkState {
  model : Model;
  heap : list param;
  dbs : kvdb.stores;
  graph : list ref
}.

Definition E (A : Type) : Type := state → result (A * state).

#[global] Instance E_ret : MRet E := fun _ a w => Ok (a, w).
#[global] Instance E_bind : MBind E := fun _ _ k m w =>
  match m w with
  | Ok (a, w') => k a w'
  | Err e => Err e
  | Panic msg => Panic msg
  | Fatal msg => Fatal msg
  end.

Definition fail {A} (r : result A) : E A := fun w =>
  match r with
  | Ok a => Ok (a, w)
  | Err e => Err e
  | Panic msg => Panic msg
  | Fatal msg => Fatal msg
  end.

Definition gets {A} (proj : state → A) : E A := fun w => Ok (proj w, w).

(** A new parameter on the heap. *)
Definition alloc (p : param) : E ref := fun w =>
  Ok (length (heap w), mkState (model w) (heap w ++ [p]) (dbs w) (graph w)).

(** A method of the parameter at [l], run on the heap and the stores. *)
Definition on_param {A} (l : ref) (m : nn.M (F := F) A) : E A := fun w =>
  match heap w !! l with
  | None => Panic "runtime error: invalid memory address or nil pointer dereference"
  | Some p =>
    '(a, s) ← m (nn.mkPState p (dbs w) []);
    mret (a, mkState (model w) (<[l := nn.self s]> (heap w)) (nn.dbs s) (graph w))
  end.

Definition set_UsedEmbeddings (u : gmap string ref) : E unit := fun w =>
  Ok (tt, mkState (mkModel (config (model w)) (storage (model w)) u
                     (ZeroEmbedding (model w)))
            (heap w) (dbs w) (graph w)).

(** A method run on a parameter that is local to the call. *)
Definition on_local {A} (p : param) (m : nn.M (F := F) A) : E (A * param) := fun w =>
  '(a, s) ← m (nn.mkPState p (dbs w) []);
  mret ((a, nn.self s), mkState (model w) (heap w) (nn.dbs s) (graph w)).

(** [if err != nil { log.Fatal(err) }] around a call. *)
Definition fatal_on_errE {A} (m : E A) : E A := fun w => fatal_on_err (m w).

(** [storage.Put], [storage.Get] and [storage.Keys] on the stores. *)
Definition Put (db : kvdb.KeyValueDB) (key : string) (val : list byte) : E unit := fun w =>
  σ ← kvdb.Put db key val (dbs w);
  mret (tt, mkState (model w) (heap w) σ (graph w)).

Definition Get (db : kvdb.KeyValueDB) (key : string) : E (option (list byte)) := fun w =>
  r ← kvdb.Get db key (dbs w);
  mret (r, w).

Definition Keys (db : kvdb.KeyValueDB) : E (list string) := fun w =>
  r ← kvdb.Keys db (dbs w);
  mret (r, w).

(** [Model.SetEmbedding]. The parameter built for the word is local to the
    call: it is serialized and dropped. *)
Definition SetEmbedding (word : string) (value : Dense) : E unit :=
  ro ← gets (fun w => ReadOnly (config (model w)));
  if ro : bool then fail (Fatal "embedding: set operation not permitted in read-only mode")
  else
    '(_, embedding) ← on_local (nn.NewParam (Some value) [])
                        (nn.SetPayload MarshalBinaryTo (Some nn.NewEmptySupport));
    '(buf, _) ← fatal_on_errE (on_local embedding (nn.Serialize MarshalBinaryTo));
    db ← gets (fun w => storage (model w));
    fatal_on_errE (Put db word buf).

(** [Model.getEmbedding]: the exact word. *)
Definition getEmbedding (word : string) : E (option ref) :=
  used ← gets (fun w => UsedEmbeddings (model w));
  match used !! word with
  | Some embedding => mret (Some embedding)
  | None =>
    db ← gets (fun w => storage (model w));
    found ← fatal_on_errE (Get db word);
    match found with
    | None => mret None
    | Some data =>
      embedding ← alloc (nn.NewParam None [nn.SetStorage db]);
      err ← on_param embedding (nn.Deserialize NewUnmarshalBinaryFrom data);
      match err with
      | Some e => fail (Fatal e)
      | None =>
        ro ← gets (fun w => ReadOnly (config (model w)));
        (if ro : bool
         then on_param embedding (nn.modify (fun p => nn.apply_option p (nn.RequiresGrad false)))
         else mret tt);;
        on_param embedding (nn.SetName word);;
        used' ← gets (fun w => UsedEmbeddings (model w));
        set_UsedEmbeddings (<[word := embedding]> used');;
        mret (Some embedding)
      end
    end
  end.

(** [Model.GetEmbedding]: the word, then the word in lower case. *)
Definition GetEmbedding (word : string) : E (option ref) :=
  found ← getEmbedding word;
  match found with
  | Some p => mret (Some p)
  | None =>
    found' ← getEmbedding (ToLower word);
    match found' with
    | Some p => mret (Some p)
    | None => mret None
    end
  end.

(** The loop of [ClearUsedEmbeddings] over the cached parameters. *)
Fixpoint release_all (ls : list ref) : E unit :=
  match ls with
  | [] => mret tt
  | l :: ls' =>
    v ← on_param l nn.Value;
    match v with
    | None => fail (Panic "interface conversion: interface is nil, not *mat.Dense")
    | Some d => let _ := mat.ReleaseDense d in release_all ls'
    end
  end.

(** [Model.ClearUsedEmbeddings]: every cached value goes back to the pool
    (the type assertion on [embedding.Value()] panics on a nil value), then
    the working set is emptied. *)
Definition ClearUsedEmbeddings : E unit :=
  used ← gets (fun w => UsedEmbeddings (model w));
  release_all (map snd (map_to_list used));;
  set_UsedEmbeddings ∅.

(** [Model.Count] *)
Definition Count : E Z :=
  db ← gets (fun w => storage (model w));
  keys ← fatal_on_errE (Keys db);
  mret (Z.of_nat (length keys)).

(** [storage.Close()], its error ignored. *)
Definition close_ignoring_error (db : kvdb.KeyValueDB) : E unit := fun w =>
  match kvdb.Close db (dbs w) with
  | Ok σ => Ok (tt, mkState (model w) (heap w) σ (graph w))
  | _ => Ok (tt, w)
  end.

(** [Model.Close] *)
Definition Close : E unit :=
  db ← gets (fun w => storage (model w));
  close_ignoring_error db;;
  ClearUsedEmbeddings.

(** [New]. [kvdb.NewDefaultKeyValueDB] (not under src/) opens the store; here
    it is open already, under the handle [db]. [ZeroEmbedding] is a zero
    vector of [Size] elements that takes no gradient, the first parameter on
    the heap. (The registry [allModels] is not modelled.) *)
Definition New (cfg : Config) (db : kvdb.KeyValueDB) (σ : kvdb.stores) : state :=
  mkState (mkModel cfg db ∅ 0%nat)
    [nn.apply_option
       (nn.NewParam (Some (mat.GetEmptyDenseWorkspace fzero (Size cfg) 1)) [])
       (nn.RequiresGrad false)]
    σ [].

(** The state with another working set, heap and stores. *)
Definition with_cache (u : gmap string ref) (h : list param) (w : state) : state :=
  mkState (mkModel (config (model w)) (storage (model w)) u (ZeroEmbedding (model w)))
    h (dbs w) (graph w).

(** The parameter [getEmbedding] builds from what it decoded. *)
Definition materialized (db : kvdb.KeyValueDB) (ro : bool) (word : string)
    (pd : nn.paramData (F := F)) : param :=
  nn.mkParam word nn.Undefined (Some (nn.pdValue pd)) None (nn.pdPayload pd)
    false (negb ro) (Some db).

(** The bytes [data] decode to a parameter with value [v]. *)
Definition decodes_to (data : list byte) (v : Dense) : Prop :=
  ∃ supp rest,
    nn.paramDataUnmarshalBinaryFrom NewUnmarshalBinaryFrom data
    = Ok (nn.mkParamData v supp, rest).

(** [H k v]: the value [v] has been stored for the key [k]. The state agrees
    with [H] when its store is open, every entry of the store decodes to a
    value stored for its key, and every cached parameter holds a value stored
    for its word. *)
Definition consistent (H : string → Dense → Prop) (w : state) : Prop :=
  (∃ t, dbs w !! storage (model w) = Some t ∧
        ∀ k data, t !! k = Some data → ∃ v, H k v ∧ decodes_to data v) ∧
  (∀ k l, UsedEmbeddings (model w) !! k = Some l →
          ∃ p v, heap w !! l = Some p ∧ nn.value p = Some v ∧ H k v).

(** [getEmbedding] found [key] in the store and built its parameter. *)
Definition materializes (key : string) (data : list byte) (r : option ref)
    (w w' : state) : Prop :=
  ∃ pd rest,
    nn.paramDataUnmarshalBinaryFrom NewUnmarshalBinaryFrom data = Ok (pd, rest) ∧
    r = Some (length (heap w)) ∧
    w' = with_cache (<[key := length (heap w)]> (UsedEmbeddings (model w)))
           (heap w ++ [materialized (storage (model w))
                         (ReadOnly (config (model w))) key pd]) w.

(** Modelled from the spec: [Graph.NewWrap] of pkg/ml/ag (not under src/):
    adapts a parameter as an operand of the graph, without copying its value;
    every call appends a new node and returns it. *)
Definition NewWrap (param : ref) : E Node := fun w =>
  Ok (length (graph w), mkState (model w) (heap w) (dbs w) (graph w ++ [param])).

(** [Processor]. Its model and its graph are the ones of the state;
    [zeroEmbedding] can be nil. *)
Record Processor : Type := mkProcessor { zeroEmbedding : option Node }.

(** [Model.NewProc] *)
Definition NewProc : E Processor :=
  use ← gets (fun w => UseZeroEmbedding (config (model w)));
  if use : bool then
    z ← gets (fun w => ZeroEmbedding (model w));
    n ← NewWrap z;
    mret (mkProcessor (Some n))
  else mret (mkProcessor None).

(** [Processor.getEmbedding] *)
Definition Processor_getEmbedding (p : Processor) (words : string) : E (option Node) :=
  param ← GetEmbedding words;
  match param with
  | None => mret (zeroEmbedding p)
  | Some l => n ← NewWrap l; mret (Some n)
  end.

(** The loop of [Processor.Encode] over the words still to encode, with the
    [cache] of the nodes of the words met so far. *)
Fixpoint Encode_loop (p : Processor) (words : list string)
    (cache : gmap string (option Node)) : E (list (option Node)) :=
  match words with
  | [] => mret []
  | word :: rest =>
    match cache !! word with
    | Some item =>
      encoding ← Encode_loop p rest cache;
      mret (item :: encoding)
    | None =>
      embedding ← Processor_getEmbedding p word;
      encoding ← Encode_loop p rest (<[word := embedding]> cache);
      mret (embedding :: encoding)
    end
  end.

(** [Processor.Encode] *)
Definition Encode (p : Processor) (words : list string) : E (list (option Node)) :=
  Encode_loop p words ∅.

(** The words of a sequence at their first occurrence, in order, those in
    [seen] left out. *)
Fixpoint first_occurrences (seen : gset string) (words : list string) : list string :=
  match words with
  | [] => []
  | x :: xs =>
    if decide (x ∈ seen) then first_occurrences seen xs
    else x :: first_occurrences ({[x]} ∪ seen) xs
  end.

(** One call of [Processor.getEmbedding] for each key, in order: the table of
    the nodes returned. *)
Fixpoint lookup_each (p : Processor) (keys : list string)
  : E (list (string * option Node)) :=
  match keys with
  | [] => mret []
  | k :: ks =>
    n ← Processor_getEmbedding p k;
    tbl ← lookup_each p ks;
    mret ((k, n) :: tbl)
  end.

(** The node a table gives a word. *)
Definition assign (m : gmap string (option Node)) (x : string) : option Node :=
  default None (m !! x).

(** *** Lookups *)

Ltac step_E :=
  unfold GetEmbedding, getEmbedding, SetEmbedding, fatal_on_errE, Put, Get, Keys,
    set_UsedEmbeddings, on_local, gets, fail in *;
  unfold mbind, mret, E_bind, E_ret, result_bind, result_ret in *;
  cbn in *.

Lemma on_param_last {A} (m : nn.M (F := F) A) (w : state) (h : list param) (p : param) :
  heap w = h ++ [p] →
  on_param (length h) m w
  = match m (nn.mkPState p (dbs w) []) with
    | Ok (a, s) => Ok (a, mkState (model w) (h ++ [nn.self s]) (nn.dbs s) (graph w))
    | Err e => Err e
    | Panic msg => Panic msg
    | Fatal msg => Fatal msg
    end.
Proof.
  intros Hh. unfold on_param. rewrite Hh.
  rewrite list_lookup_middle by done.
  unfold mbind, result_bind. destruct (m _) as [[a s]| | |]; try done.
  cbn. do 3 f_equal.
  rewrite insert_app_r_alt by lia. by rewrite Nat.sub_diag.
Qed.

Lemma getEmbedding_cached (word : string) (w : state) (l : ref) :
  UsedEmbeddings (model w) !! word = Some l →
  getEmbedding word w = Ok (Some l, w).
Proof. intros Hc. step_E. by rewrite Hc. Qed.

Lemma getEmbedding_absent (word : string) (w : state) (t : gmap string (list byte)) :
  UsedEmbeddings (model w) !! word = None →
  dbs w !! storage (model w) = Some t →
  t !! word = None →
  getEmbedding word w = Ok (None, w).
Proof.
  intros Hc Hdb Ht. step_E. rewrite Hc. unfold kvdb.Get. rewrite Hdb. cbn.
  by rewrite Ht.
Qed.

Lemma getEmbedding_materializes (word : string) (w : state)
    (t : gmap string (list byte)) (data rest : list byte) (pd : nn.paramData) :
  UsedEmbeddings (model w) !! word = None →
  dbs w !! storage (model w) = Some t →
  t !! word = Some data →
  nn.paramDataUnmarshalBinaryFrom NewUnmarshalBinaryFrom data = Ok (pd, rest) →
  getEmbedding word w
  = Ok (Some (length (heap w)),
        with_cache (<[word := length (heap w)]> (UsedEmbeddings (model w)))
          (heap w ++ [materialized (storage (model w)) (ReadOnly (config (model w))) word pd])
          w).
Proof.
  intros Hc Hdb Ht Hdec. destruct w as [[cfg db used zero] h σ g]. cbn in *.
  step_E. rewrite Hc. cbn. unfold kvdb.Get. rewrite Hdb. cbn. rewrite Ht. cbn.
  rewrite (on_param_last _ _ h (nn.NewParam None [nn.SetStorage db])) by done.
  cbn. unfold nn.Deserialize. rewrite Hdec.
  unfold nn.write_value, nn.write_payload, nn.emit, nn.modify.
  unfold mbind, mret, nn.M_bind, nn.M_ret. cbn.
  destruct (ReadOnly cfg); cbn.
  - rewrite (on_param_last _ _ h _) by done. cbn.
    rewrite (on_param_last _ _ h _) by done. cbn. reflexivity.
  - rewrite (on_param_last _ _ h _) by done. cbn. reflexivity.
Qed.

(** The three ways [getEmbedding] returns: the word is cached; it is neither
    cached nor stored; it is stored, and a new parameter is decoded from its
    bytes, named after the word, and cached. *)
Lemma getEmbedding_inv (word : string) (w w' : state) (r : option ref) :
  getEmbedding word w = Ok (r, w') →
  (∃ l, UsedEmbeddings (model w) !! word = Some l ∧ r = Some l ∧ w' = w) ∨
  (UsedEmbeddings (model w) !! word = None ∧
   ∃ t, dbs w !! storage (model w) = Some t ∧
     ((t !! word = None ∧ r = None ∧ w' = w) ∨
      (∃ data pd rest,
         t !! word = Some data ∧
         nn.paramDataUnmarshalBinaryFrom NewUnmarshalBinaryFrom data = Ok (pd, rest) ∧
         r = Some (length (heap w)) ∧
         w' = with_cache (<[word := length (heap w)]> (UsedEmbeddings (model w)))
                (heap w ++ [materialized (storage (model w))
                              (ReadOnly (config (model w))) word pd]) w))).
Proof.
  intros Hrun.
  destruct (UsedEmbeddings (model w) !! word) as [l|] eqn:Hc.
  - rewrite (getEmbedding_cached word w l Hc) in Hrun. left. exists l. by simplify_eq.
  - right. split; [done|].
    destruct (dbs w !! storage (model w)) as [t|] eqn:Hdb.
    + exists t. split; [done|].
      destruct (t !! word) as [data|] eqn:Ht.
      * right.
        destruct (nn.paramDataUnmarshalBinaryFrom NewUnmarshalBinaryFrom data)
          as [[pd rest]|e|msg|msg] eqn:Hdec.
        { rewrite (getEmbedding_materializes word w t data rest pd Hc Hdb Ht Hdec) in Hrun.
          exists data, pd, rest. by simplify_eq. }
        all: exfalso; destruct w as [[cfg db used zero] h σ g]; cbn in *;
          step_E; rewrite Hc in Hrun; cbn in Hrun; unfold kvdb.Get in Hrun;
          rewrite Hdb in Hrun; cbn in Hrun; rewrite Ht in Hrun; cbn in Hrun;
          rewrite (on_param_last _ _ h (nn.NewParam None [nn.SetStorage db])) in Hrun by done;
          cbn in Hrun; unfold nn.Deserialize in Hrun; rewrite Hdec in Hrun;
          cbn in Hrun; discriminate.
      * left. rewrite (getEmbedding_absent word w t Hc Hdb Ht) in Hrun. by simplify_eq.
    + exfalso. step_E. rewrite Hc in Hrun. cbn in Hrun. unfold kvdb.Get in Hrun.
      rewrite Hdb in Hrun. cbn in Hrun. discriminate.
Qed.

(** [SetEmbedding] on a store that is open and not read-only: the bytes it
    puts under the word decode to the value and the empty payload; the working
    set and the heap are not touched. *)
Lemma SetEmbedding_stores (word : string) (v : Dense) (w : state)
    (t : gmap string (list byte)) :
  ReadOnly (config (model w)) = false →
  dbs w !! storage (model w) = Some t →
  nn.roundtrips MarshalBinaryTo NewUnmarshalBinaryFrom v →
  ∃ buf,
    SetEmbedding word v w
    = Ok (tt, mkState (model w) (heap w)
                (<[storage (model w) := <[word := buf]> t]> (dbs w)) (graph w)) ∧
    nn.paramDataUnmarshalBinaryFrom NewUnmarshalBinaryFrom buf
    = Ok (nn.mkParamData v (Some nn.NewEmptySupport), []).
Proof.
  intros Hro Hdb Hv.
  destruct (nn.paramData_roundtrip MarshalBinaryTo NewUnmarshalBinaryFrom v nn.NewEmptySupport Hv)
    as (buf & Hbuf & Hback).
  { split; [cbn; lia|]. split; [cbn; lia|]. constructor. }
  exists buf. split; [|exact Hback].
  destruct w as [[cfg db used zero] h σ g]. cbn in *.
  step_E. rewrite Hro. cbn.
  unfold nn.SetPayload, nn.updateStorage_if_backed, nn.Serialize, nn.Lock, nn.Unlock,
    nn.write_payload, nn.read_value, nn.read_payload, nn.emit, nn.modify, nn.get, nn.lift.
  unfold mbind, mret, nn.M_bind, nn.M_ret. cbn.
  rewrite Hbuf. cbn. unfold kvdb.Put. by rewrite Hdb.
Qed.

(** *** The values stored and the values found *)

Lemma consistent_materialized (H : string → Dense → Prop) (key : string) (w : state)
    (pd : nn.paramData) :
  consistent H w → H key (nn.pdValue pd) →
  consistent H
    (with_cache (<[key := length (heap w)]> (UsedEmbeddings (model w)))
       (heap w ++ [materialized (storage (model w)) (ReadOnly (config (model w))) key pd]) w).
Proof.
  intros [Hstore Hcache] Hkey. split; [exact Hstore|].
  intros k l. cbn. rewrite lookup_insert. case_decide as Hk.
  - intros [= <-]. subst k. eexists _, _.
    split; [by apply list_lookup_middle|]. done.
  - intros Hl. destruct (Hcache k l Hl) as (p & v & Hp & Hv & HH).
    exists p, v. split; [by apply lookup_app_l_Some|done].
Qed.

(** One exact lookup in a consistent state. *)
Lemma getEmbedding_cases (H : string → Dense → Prop) (key : string) (w : state)
    (t : gmap string (list byte)) :
  consistent H w → dbs w !! storage (model w) = Some t →
  ∃ r w', getEmbedding key w = Ok (r, w') ∧ consistent H w' ∧
    dbs w' = dbs w ∧ storage (model w') = storage (model w) ∧
    match UsedEmbeddings (model w) !! key, t !! key with
    | Some l, _ => r = Some l ∧ w' = w
    | None, Some data => materializes key data r w w'
    | None, None => r = None ∧ w' = w
    end.
Proof.
  intros Hcons Hdb. pose proof Hcons as [(t' & Hdb' & Hstore) Hcache].
  assert (t' = t) as -> by congruence.
  destruct (UsedEmbeddings (model w) !! key) as [l|] eqn:Hc.
  - exists (Some l), w. by rewrite (getEmbedding_cached key w l Hc).
  - destruct (t !! key) as [data|] eqn:Ht.
    + destruct (Hstore key data Ht) as (v & Hv & supp & rest & Hdec).
      eexists _, _. split; [by eapply getEmbedding_materializes|].
      split; [by apply (consistent_materialized H key w (nn.mkParamData v supp))|].
      split; [done|]. split; [done|]. by exists (nn.mkParamData v supp), rest.
    + exists None, w. by rewrite (getEmbedding_absent key w t Hc Hdb Ht).
Qed.

(** C5. On a store that is open and whose entries decode ([consistent]),
    [GetEmbedding(word)] returns, and looks the word up in this order: the
    working set; the backing store, where a hit is decoded into a new
    parameter that is named after the word and cached; then the same two steps
    for the word in lower case. It returns nil exactly when all four lookups
    miss. A parameter it finds is cached under the word or the word in lower
    case, and its value is a value stored for that key. *)
Theorem GetEmbedding_lookup_order (H : string → Dense → Prop) (word : string)
    (w : state) (t : gmap string (list byte)) :
  consistent H w → dbs w !! storage (model w) = Some t →
  ∃ r w', GetEmbedding word w = Ok (r, w') ∧ consistent H w' ∧
    match UsedEmbeddings (model w) !! word, t !! word,
          UsedEmbeddings (model w) !! ToLower word, t !! ToLower word with
    | Some l, _, _, _ => r = Some l ∧ w' = w
    | None, Some data, _, _ => materializes word data r w w'
    | None, None, Some l, _ => r = Some l ∧ w' = w
    | None, None, None, Some data => materializes (ToLower word) data r w w'
    | None, None, None, None => r = None ∧ w' = w
    end ∧
    (r = None ↔
       UsedEmbeddings (model w) !! word = None ∧ t !! word = None ∧
       UsedEmbeddings (model w) !! ToLower word = None ∧ t !! ToLower word = None) ∧
    (∀ l, r = Some l →
       ∃ p v k, heap w' !! l = Some p ∧ nn.value p = Some v ∧
                (k = word ∨ k = ToLower word) ∧
                UsedEmbeddings (model w') !! k = Some l ∧ H k v).
Proof.
  intros Hcons Hdb.
  destruct (getEmbedding_cases H word w t Hcons Hdb)
    as (r1 & w1 & Hrun1 & Hcons1 & Hdbs1 & Hst1 & Hcase1).
  unfold GetEmbedding. unfold mbind at 1, E_bind at 1. rewrite Hrun1.
  destruct (UsedEmbeddings (model w) !! word) as [l|] eqn:Hc1.
  { destruct Hcase1 as [-> ->]. exists (Some l), w. cbn.
    split; [done|]. split; [done|]. split; [done|]. split; [split; [done|intros (?&?&?&?); congruence]|].
    intros l' [= <-]. destruct Hcons as [_ Hcache].
    destruct (Hcache word l Hc1) as (p & v & Hp & Hv & HH).
    exists p, v, word. eauto 10. }
  destruct (t !! word) as [data|] eqn:Ht1.
  { destruct Hcase1 as (pd & rest & Hdec & -> & ->). eexists _, _. cbn.
    split; [done|]. split; [done|]. split; [by exists pd, rest|]. split; [split; [done|intros (?&?&?&?); congruence]|].
    intros l' [= <-]. destruct Hcons1 as [_ Hcache].
    destruct (Hcache word (length (heap w))) as (p & v & Hp & Hv & HH).
    { cbn. by rewrite lookup_insert_eq. }
    exists p, v, word. split; [done|]. split; [done|]. split; [by left|].
    split; [cbn; by rewrite lookup_insert_eq|done]. }
  destruct Hcase1 as [-> ->].
  destruct (getEmbedding_cases H (ToLower word) w t Hcons Hdb)
    as (r2 & w2 & Hrun2 & Hcons2 & Hdbs2 & Hst2 & Hcase2).
  unfold mbind, E_bind. rewrite Hrun2.
  destruct (UsedEmbeddings (model w) !! ToLower word) as [l|] eqn:Hc2.
  { destruct Hcase2 as [-> ->]. exists (Some l), w. cbn.
    split; [done|]. split; [done|]. split; [done|]. split; [split; [done|intros (?&?&?&?); congruence]|].
    intros l' [= <-]. destruct Hcons as [_ Hcache].
    destruct (Hcache (ToLower word) l Hc2) as (p & v & Hp & Hv & HH).
    exists p, v, (ToLower word). eauto 10. }
  destruct (t !! ToLower word) as [data|] eqn:Ht2.
  { destruct Hcase2 as (pd & rest & Hdec & -> & ->). eexists _, _. cbn.
    split; [done|]. split; [done|]. split; [by exists pd, rest|]. split; [split; [done|intros (?&?&?&?); congruence]|].
    intros l' [= <-]. destruct Hcons2 as [_ Hcache].
    destruct (Hcache (ToLower word) (length (heap w))) as (p & v & Hp & Hv & HH).
    { cbn. by rewrite lookup_insert_eq. }
    exists p, v, (ToLower word). split; [done|]. split; [done|]. split; [by right|].
    split; [cbn; by rewrite lookup_insert_eq|done]. }
  destruct Hcase2 as [-> ->]. exists None, w. cbn.
  split; [done|]. split; [done|]. split; [done|]. split; [done|]. done.
Qed.

(** *** Writes to the store *)

(** Whatever [SetEmbedding] does, it leaves the model (its working set
    included), the heap and the graph as they are. *)
Lemma SetEmbedding_frame (word : string) (v : Dense) (w w' : state) :
  SetEmbedding word v w = Ok (tt, w') →
  model w' = model w ∧ heap w' = heap w ∧ graph w' = graph w.
Proof.
  intros Hrun. step_E.
  repeat first [progress simplify_eq/= | case_match]; done.
Qed.

Lemma SetEmbedding_consistent (H : string → Dense → Prop) (word : string) (v : Dense)
    (w : state) :
  consistent H w →
  ReadOnly (config (model w)) = false →
  nn.roundtrips MarshalBinaryTo NewUnmarshalBinaryFrom v →
  ∃ w' t',
    SetEmbedding word v w = Ok (tt, w') ∧
    consistent (λ k u, H k u ∨ (k = word ∧ u = v)) w' ∧
    dbs w' !! storage (model w') = Some t' ∧
    (∃ buf, t' !! word = Some buf ∧
            nn.paramDataUnmarshalBinaryFrom NewUnmarshalBinaryFrom buf
            = Ok (nn.mkParamData v (Some nn.NewEmptySupport), [])).
Proof.
  intros [(t & Hdb & Hstore) Hcache] Hro Hv.
  destruct (SetEmbedding_stores word v w t Hro Hdb Hv) as (buf & Hrun & Hdec).
  eexists _, (<[word := buf]> t). split; [exact Hrun|]. cbn.
  split; [|split; [by rewrite lookup_insert_eq|]].
  - split.
    + exists (<[word := buf]> t). cbn. split; [by rewrite lookup_insert_eq|].
      intros k data. rewrite lookup_insert. case_decide as Hk.
      * intros [= <-]. subst k. exists v. split; [by right|]. by eexists _, _.
      * intros Hk'. destruct (Hstore k data Hk') as (u & Hu & Hd). exists u. eauto.
    + intros k l Hl. destruct (Hcache k l Hl) as (p & u & Hp & Hu & HH).
      exists p, u. eauto.
  - exists buf. by rewrite lookup_insert_eq.
Qed.

(** *** Clearing the working set *)

Lemma release_all_ok (ls : list ref) (w : state) :
  (∀ l, l ∈ ls → ∃ p v, heap w !! l = Some p ∧ nn.value p = Some v) →
  release_all ls w = Ok (tt, w).
Proof.
  induction ls as [|l ls IH]; intros Hall; [done|].
  destruct (Hall l) as (p & v & Hp & Hv); [by left|].
  cbn [release_all]. unfold mbind at 1, E_bind at 1.
  unfold on_param. rewrite Hp. unfold nn.Value, nn.read_value, nn.emit, nn.get.
  unfold mbind, mret, nn.M_bind, nn.M_ret, result_bind, result_ret, E_bind. cbn.
  rewrite Hv, (list_insert_id _ _ _ Hp).
  destruct w as [m h σ g]. cbn. apply IH. intros l' Hl'. apply Hall. by right.
Qed.

Lemma ClearUsedEmbeddings_consistent (H : string → Dense → Prop) (w : state) :
  consistent H w →
  ClearUsedEmbeddings w = Ok (tt, with_cache ∅ (heap w) w) ∧
  consistent H (with_cache ∅ (heap w) w).
Proof.
  intros [Hstore Hcache]. split.
  - unfold ClearUsedEmbeddings. unfold mbind, E_bind, gets. cbn.
    rewrite release_all_ok; [done|].
    intros l Hl. apply list_elem_of_fmap in Hl as ([k l'] & -> & Hl).
    apply elem_of_map_to_list in Hl.
    destruct (Hcache k l' Hl) as (p & v & Hp & Hv & _). eauto.
  - split; [exact Hstore|]. intros k l. cbn. by rewrite lookup_empty.
Qed.

(** C10. [SetEmbedding(word, value)] writes to the backing store alone: the
    working set and the parameters are as before. So where the word is cached,
    [GetEmbedding(word)] still returns the cached parameter, unchanged, and
    not one holding the new value; once [ClearUsedEmbeddings] has been called,
    it builds a new parameter, which holds the new value. *)
Theorem SetEmbedding_leaves_working_set (H : string → Dense → Prop) (word : string)
    (v : Dense) (w : state) (l : ref) :
  consistent H w →
  ReadOnly (config (model w)) = false →
  nn.roundtrips MarshalBinaryTo NewUnmarshalBinaryFrom v →
  UsedEmbeddings (model w) !! word = Some l →
  ∃ w1,
    SetEmbedding word v w = Ok (tt, w1) ∧
    UsedEmbeddings (model w1) = UsedEmbeddings (model w) ∧
    heap w1 = heap w ∧
    GetEmbedding word w1 = Ok (Some l, w1) ∧
    ∃ w2 w3 p,
      ClearUsedEmbeddings w1 = Ok (tt, w2) ∧
      GetEmbedding word w2 = Ok (Some (length (heap w)), w3) ∧
      (l < length (heap w))%nat ∧
      heap w3 !! l = heap w !! l ∧
      heap w3 !! length (heap w) = Some p ∧
      nn.value p = Some v.
Proof.
  intros Hcons Hro Hv Hl.
  destruct (SetEmbedding_consistent H word v w Hcons Hro Hv)
    as (w1 & t1 & Hset & Hcons1 & Hdb1 & buf & Hbuf & Hdec).
  destruct (SetEmbedding_frame word v w w1 Hset) as (Hm & Hh & Hg).
  exists w1. split; [exact Hset|]. split; [by rewrite Hm|]. split; [exact Hh|].
  split.
  { unfold GetEmbedding. unfold mbind at 1, E_bind at 1.
    rewrite (getEmbedding_cached word w1 l); [done|by rewrite Hm]. }
  destruct (ClearUsedEmbeddings_consistent _ w1 Hcons1) as [Hclear Hcons2].
  set (w2 := with_cache ∅ (heap w1) w1) in *.
  assert (getEmbedding word w2
          = Ok (Some (length (heap w2)),
                with_cache (<[word := length (heap w2)]> (UsedEmbeddings (model w2)))
                  (heap w2 ++ [materialized (storage (model w2)) (ReadOnly (config (model w2)))
                                 word (nn.mkParamData v (Some nn.NewEmptySupport))]) w2))
    as Hget.
  { eapply getEmbedding_materializes; [done|exact Hdb1|exact Hbuf|exact Hdec]. }
  destruct Hcons as [_ Hcache]. destruct (Hcache word l Hl) as (p0 & v0 & Hp0 & _).
  eexists w2, _, _. split; [exact Hclear|].
  split.
  { unfold GetEmbedding. unfold mbind at 1, E_bind at 1. rewrite Hget.
    cbn. by rewrite Hh. }
  split; [by eapply lookup_lt_Some|].
  cbn. rewrite ?Hh.
  split; [apply lookup_app_l; by eapply lookup_lt_Some|].
  split; [by apply list_lookup_middle|done].
Qed.

(** C6. On a read-only store [SetEmbedding] ends in [log.Fatal], and a
    parameter that [GetEmbedding] builds from the backing store (one it
    returns that was not in the working set) has [requiresGrad] off. *)
Theorem ReadOnly_store_refuses_writes_and_gradients (word : string) (w : state) :
  ReadOnly (config (model w)) = true →
  (∀ v, SetEmbedding word v w
        = Fatal "embedding: set operation not permitted in read-only mode") ∧
  (∀ l w', GetEmbedding word w = Ok (Some l, w') →
     UsedEmbeddings (model w) !! word ≠ Some l →
     UsedEmbeddings (model w) !! ToLower word ≠ Some l →
     ∃ p, heap w' !! l = Some p ∧ heap w !! l = None ∧
          nn.requiresGrad p = false).
Proof.
  intros Hro. split.
  { intros v. step_E. by rewrite Hro. }
  intros l w' Hrun Hn1 Hn2.
  assert (∀ key, getEmbedding key w = Ok (Some l, w') →
                 UsedEmbeddings (model w) !! key ≠ Some l →
                 ∃ p, heap w' !! l = Some p ∧ heap w !! l = None ∧
                      nn.requiresGrad p = false) as Hone.
  { intros key Hget Hn.
    destruct (getEmbedding_inv key w w' (Some l) Hget)
      as [(l' & Hc & [= <-] & _)|(_ & t & _ & [(_ & [=] & _)|(data & pd & rest & _ & _ & [= ->] & ->)])].
    - done.
    - eexists. cbn. split; [by apply list_lookup_middle|].
      split; [by apply lookup_ge_None_2|]. by rewrite Hro. }
  unfold GetEmbedding in Hrun. unfold mbind at 1, E_bind at 1 in Hrun.
  destruct (getEmbedding word w) as [[[l1|] w1]| | |] eqn:Hget1; try done.
  - unfold mret, E_ret in Hrun. simplify_eq. by apply (Hone word).
  - destruct (getEmbedding_inv word w w1 None Hget1)
      as [(l' & _ & [=] & _)|(_ & t & _ & [(_ & _ & ->)|(data & pd & rest & _ & _ & [=] & _)])].
    unfold mbind, E_bind in Hrun.
    destruct (getEmbedding (ToLower word) w) as [[[l2|] w2]| | |] eqn:Hget2; try done.
    unfold mret, E_ret in Hrun. simplify_eq. by apply (Hone (ToLower word)).
Qed.

(** *** The processor *)

Lemma Encode_loop_lookup_each (p : Processor) (words : list string)
    (cache : gmap string (option Node)) (w : state) :
  Encode_loop p words cache w
  = (tbl ← lookup_each p (first_occurrences (dom cache) words);
     mret (map (assign (cache ∪ list_to_map tbl)) words)) w.
Proof.
  revert cache w. induction words as [|x xs IH]; intros cache w; [done|].
  cbn [Encode_loop first_occurrences].
  destruct (cache !! x) as [item|] eqn:Hx.
  - rewrite decide_True by (apply elem_of_dom; eauto).
    unfold mbind, E_bind. rewrite IH. unfold mbind, E_bind.
    destruct (lookup_each p _ w) as [[tbl w']| | |]; try done.
    unfold mret, E_ret. cbn [map]. do 3 f_equal.
    unfold assign. by rewrite (lookup_union_Some_l _ _ _ _ Hx).
  - rewrite decide_False by (by apply not_elem_of_dom).
    cbn [lookup_each]. unfold mbind, E_bind.
    destruct (Processor_getEmbedding p x w) as [[n w1]| | |]; try done.
    rewrite IH. rewrite dom_insert_L. unfold mbind, E_bind.
    destruct (lookup_each p _ w1) as [[tbl w2]| | |]; try done.
    unfold mret, E_ret. cbn [map list_to_map foldr uncurry fst snd].
    replace (cache ∪ <[x:=n]> (list_to_map tbl))
      with (<[x:=n]> cache ∪ (list_to_map tbl : gmap string (option Node))).
    + do 3 f_equal. unfold assign.
      by rewrite (lookup_union_Some_l _ _ x n) by apply lookup_insert_eq.
    + by rewrite <- insert_union_l, insert_union_r.
Qed.

Lemma first_occurrences_spec (words : list string) (seen : gset string) :
  NoDup (first_occurrences seen words) ∧
  ∀ x, x ∈ first_occurrences seen words ↔ x ∈ words ∧ x ∉ seen.
Proof.
  revert seen. induction words as [|y ys IH]; intros seen; cbn.
  - split; [constructor|]. intros x. set_solver.
  - case_decide as Hy.
    + destruct (IH seen) as [Hnd Hin]. split; [done|].
      intros x. rewrite Hin. set_solver.
    + destruct (IH ({[y]} ∪ seen)) as [Hnd Hin]. split.
      * constructor; [|done]. rewrite Hin. set_solver.
      * intros x. rewrite elem_of_cons, Hin.
        destruct (decide (x = y)); set_solver.
Qed.

(** C7. [Encode(words)] makes one call of [getEmbedding] (one lookup in the
    model, one wrap into the graph) for each distinct word, at its first
    occurrence and in that order, and gives every position the node its word
    got: one node per position, and the same node at any two positions that
    hold the same word. *)
Theorem Encode_one_node_per_word (p : Processor) (words : list string) (w : state) :
  Encode p words w
  = (tbl ← lookup_each p (first_occurrences ∅ words);
     mret (map (assign (list_to_map tbl)) words)) w ∧
  NoDup (first_occurrences ∅ words) ∧
  (∀ x, x ∈ first_occurrences ∅ words ↔ x ∈ words) ∧
  (∀ encoding w', Encode p words w = Ok (encoding, w') →
     length encoding = length words ∧
     ∀ i j x, words !! i = Some x → words !! j = Some x →
              encoding !! i = encoding !! j).
Proof.
  assert (Encode p words w
          = (tbl ← lookup_each p (first_occurrences ∅ words);
             mret (map (assign (list_to_map tbl)) words)) w) as Heq.
  { unfold Encode. rewrite Encode_loop_lookup_each. rewrite dom_empty_L.
    unfold mbind, E_bind. destruct (lookup_each p _ w) as [[tbl w']| | |]; try done.
    by rewrite (left_id_L ∅ (∪)). }
  split; [exact Heq|].
  destruct (first_occurrences_spec words ∅) as [Hnd Hin].
  split; [exact Hnd|]. split; [intros x; rewrite Hin; set_solver|].
  intros encoding w' Hrun. rewrite Heq in Hrun. unfold mbind, E_bind in Hrun.
  destruct (lookup_each p _ w) as [[tbl w1]| | |]; try done.
  unfold mret, E_ret in Hrun. simplify_eq.
  split; [by rewrite length_map|].
  intros i j x Hi Hj. by rewrite !list_lookup_fmap, Hi, Hj.
Qed.

(** A word that is stored and not cached, looked up in a consistent state. *)
Lemma GetEmbedding_stored (H : string → Dense → Prop) (key : string) (w : state)
    (t : gmap string (list byte)) (data : list byte) :
  consistent H w → dbs w !! storage (model w) = Some t →
  UsedEmbeddings (model w) !! key = None → t !! key = Some data →
  ∃ w', GetEmbedding key w = Ok (Some (length (heap w)), w') ∧
        consistent H w' ∧
        UsedEmbeddings (model w') !! key = Some (length (heap w)) ∧
        config (model w') = config (model w).
Proof.
  intros Hcons Hdb Hc Ht.
  destruct (getEmbedding_cases H key w t Hcons Hdb)
    as (r & w' & Hrun & Hcons' & _ & _ & Hcase).
  rewrite Hc, Ht in Hcase. destruct Hcase as (pd & rest & _ & -> & ->).
  eexists. split; [|split; [exact Hcons'|]].
  - unfold GetEmbedding. unfold mbind, E_bind. by rewrite Hrun.
  - cbn. by rewrite lookup_insert_eq.
Qed.

(** *** More on the store *)

(** What stays as it is around a lookup, a clearing and a write. *)
Lemma getEmbedding_frame (key : string) (w w' : state) (r : option ref) :
  getEmbedding key w = Ok (r, w') →
  dbs w' = dbs w ∧ graph w' = graph w ∧
  config (model w') = config (model w) ∧ storage (model w') = storage (model w) ∧
  ZeroEmbedding (model w') = ZeroEmbedding (model w).
Proof.
  intros Hrun.
  destruct (getEmbedding_inv key w w' r Hrun)
    as [(l & _ & _ & ->)|(_ & t & _ & [(_ & _ & ->)|(data & pd & rest & _ & _ & _ & ->)])];
    done.
Qed.

Lemma GetEmbedding_frame (word : string) (w w' : state) (r : option ref) :
  GetEmbedding word w = Ok (r, w') →
  dbs w' = dbs w ∧ graph w' = graph w ∧
  config (model w') = config (model w) ∧ storage (model w') = storage (model w) ∧
  ZeroEmbedding (model w') = ZeroEmbedding (model w).
Proof.
  unfold GetEmbedding. unfold mbind, E_bind, mret, E_ret. intros Hrun.
  destruct (getEmbedding word w) as [[[l1|] w1]| | |] eqn:Hget1; try done.
  - simplify_eq. by eapply getEmbedding_frame.
  - destruct (getEmbedding_frame word w w1 None Hget1) as (Hd & Hg & Hc & Hs & Hz).
    destruct (getEmbedding (ToLower word) w1) as [[[l2|] w2]| | |] eqn:Hget2; try done;
      simplify_eq;
      destruct (getEmbedding_frame _ _ _ _ Hget2) as (Hd' & Hg' & Hc' & Hs' & Hz');
      repeat split; congruence.
Qed.

Lemma release_all_frame (ls : list ref) (w w' : state) :
  release_all ls w = Ok (tt, w') →
  dbs w' = dbs w ∧ model w' = model w ∧ graph w' = graph w.
Proof.
  revert w. induction ls as [|l ls IH]; intros w Hrun.
  - unfold release_all, mret, E_ret in Hrun. by simplify_eq.
  - cbn [release_all] in Hrun. unfold mbind at 1, E_bind at 1 in Hrun.
    unfold on_param in Hrun. destruct (heap w !! l) as [p|]; [|done].
    unfold nn.Value, nn.read_value, nn.emit, nn.get in Hrun.
    unfold mbind, mret, nn.M_bind, nn.M_ret, result_bind, result_ret in Hrun.
    cbn in Hrun. destruct (nn.value p); [|done].
    by destruct (IH _ Hrun) as (-> & -> & ->).
Qed.

Lemma SetEmbedding_dbs (word : string) (v : Dense) (w w' : state)
    (t : gmap string (list byte)) :
  SetEmbedding word v w = Ok (tt, w') →
  dbs w !! storage (model w) = Some t →
  ∃ buf, dbs w' = <[storage (model w) := <[word := buf]> t]> (dbs w).
Proof.
  intros Hrun Hdb. step_E. unfold kvdb.Put in Hrun.
  repeat first [progress simplify_eq/= | case_match]; try done.
  unfold nn.SetPayload, nn.updateStorage_if_backed, nn.Serialize, nn.Lock, nn.Unlock,
    nn.write_payload, nn.read_value, nn.read_payload, nn.emit, nn.modify, nn.get,
    nn.lift in *.
  unfold mbind, mret, nn.M_bind, nn.M_ret in *. cbn in *.
  repeat first [progress simplify_eq/= | case_match]; try done.
  all: eauto.
Qed.

(** [GetEmbedding] can be asked again: once it has found a parameter, the
    same call returns the same parameter and changes nothing (nothing is
    decoded a second time); and a call that finds nothing changes nothing. *)
Theorem GetEmbedding_again (word : string) (w w' : state) (r : option ref) :
  GetEmbedding word w = Ok (r, w') →
  GetEmbedding word w' = Ok (r, w') ∧ (r = None → w' = w).
Proof.
  intros Hrun. pose proof Hrun as Hrun0.
  unfold GetEmbedding in Hrun. unfold mbind, E_bind, mret, E_ret in Hrun.
  destruct (getEmbedding word w) as [[[l1|] w1]| | |] eqn:Hget1; try done.
  - simplify_eq. split; [|done].
    assert (UsedEmbeddings (model w') !! word = Some l1) as Hc.
    { destruct (getEmbedding_inv word w w' _ Hget1)
        as [(l & Hc & [= <-] & ->)|(_ & t & _ & [(_ & [=] & _)|(data & pd & rest & _ & _ & [= ->] & ->)])];
        [done|]. cbn. by rewrite lookup_insert_eq. }
    unfold GetEmbedding. unfold mbind, E_bind, mret, E_ret.
    by rewrite (getEmbedding_cached word w' l1 Hc).
  - destruct (getEmbedding_inv word w w1 _ Hget1)
      as [(l & _ & [=] & _)|(Hc1 & t & Hdb & [(Ht & _ & ->)|(data & pd & rest & _ & _ & [=] & _)])].
    destruct (getEmbedding (ToLower word) w) as [[[l2|] w2]| | |] eqn:Hget2; try done;
      simplify_eq.
    + split; [|done].
      destruct (getEmbedding_inv (ToLower word) w w' _ Hget2)
        as [(l & Hc & [= <-] & ->)|(Hc2 & t' & Hdb' & [(_ & [=] & _)|(data & pd & rest & Ht2 & _ & [= ->] & ->)])];
        [done|].
      assert (t' = t) as -> by congruence.
      assert (word ≠ ToLower word) as Hne by congruence.
      unfold GetEmbedding. unfold mbind, E_bind, mret, E_ret.
      rewrite (getEmbedding_absent word _ t); cycle 1.
      { cbn. by rewrite lookup_insert_ne. }
      { exact Hdb. }
      { exact Ht. }
      rewrite (getEmbedding_cached (ToLower word) _ (length (heap w))); [done|].
      cbn. by rewrite lookup_insert_eq.
    + split; [|by intros _;
                destruct (getEmbedding_inv (ToLower word) w w' _ Hget2)
                  as [(l & _ & [=] & _)|(_ & t' & _ & [(_ & _ & ->)|(data & pd & rest & _ & _ & [=] & _)])]].
      destruct (getEmbedding_inv (ToLower word) w w' _ Hget2)
        as [(l & _ & [=] & _)|(_ & t' & _ & [(_ & _ & ->)|(data & pd & rest & _ & _ & [=] & _)])].
      exact Hrun0.
Qed.

(** [Count] is the number of keys of the backing store, cached or not: a
    lookup and a clearing of the working set leave it as it is, and
    [SetEmbedding] adds one exactly when the word is new to the store. *)
Theorem Count_counts_the_store (w : state) (t : gmap string (list byte)) :
  dbs w !! storage (model w) = Some t →
  Count w = Ok (Z.of_nat (size t), w) ∧
  (∀ word r w', GetEmbedding word w = Ok (r, w') →
     Count w' = Ok (Z.of_nat (size t), w')) ∧
  (∀ w', ClearUsedEmbeddings w = Ok (tt, w') →
     Count w' = Ok (Z.of_nat (size t), w')) ∧
  (∀ word v w', SetEmbedding word v w = Ok (tt, w') →
     Count w' = Ok (Z.of_nat (match t !! word with
                              | Some _ => size t
                              | None => S (size t)
                              end), w')).
Proof.
  intros Hdb.
  assert (∀ w1 t1, dbs w1 !! storage (model w1) = Some t1 →
                   Count w1 = Ok (Z.of_nat (size t1), w1)) as Hcount.
  { intros w1 t1 Hdb1. unfold Count, fatal_on_errE, Keys, gets.
    unfold mbind, mret, E_bind, E_ret, result_bind, result_ret. cbn.
    unfold kvdb.Keys. rewrite Hdb1. cbn.
    by rewrite <- size_dom. }
  split; [by apply Hcount|]. split; [|split].
  - intros word r w' Hrun.
    destruct (GetEmbedding_frame word w w' r Hrun) as (Hd & _ & _ & Hs & _).
    apply Hcount. by rewrite Hd, Hs.
  - intros w' Hrun. unfold ClearUsedEmbeddings in Hrun.
    unfold mbind, E_bind, gets, set_UsedEmbeddings in Hrun. cbn in Hrun.
    destruct (release_all _ w) as [[[] w1]| | |] eqn:Hrel; try done.
    destruct (release_all_frame _ _ _ Hrel) as (Hd & Hm & _).
    simplify_eq. apply Hcount. cbn. by rewrite Hd, Hm.
  - intros word v w' Hrun.
    destruct (SetEmbedding_frame word v w w' Hrun) as (Hm & _ & _).
    destruct (SetEmbedding_dbs word v w w' t Hrun Hdb) as (buf & Hd).
    replace (match t !! word with Some _ => size t | None => S (size t) end)
      with (size (<[word := buf]> t))
      by (rewrite map_size_insert; by destruct (t !! word)).
    apply Hcount. by rewrite Hd, Hm, lookup_insert_eq.
Qed.

(** [ClearUsedEmbeddings] empties the working set and touches neither the
    parameters on the heap nor the store: a word of the store that is looked
    up afterwards is decoded again, into a new parameter. *)
Theorem ClearUsedEmbeddings_keeps_the_store (H : string → Dense → Prop) (w : state) :
  consistent H w →
  ∃ w', ClearUsedEmbeddings w = Ok (tt, w') ∧
        UsedEmbeddings (model w') = ∅ ∧
        heap w' = heap w ∧ dbs w' = dbs w ∧ graph w' = graph w ∧
        ∀ word t data pd rest,
          dbs w !! storage (model w) = Some t → t !! word = Some data →
          nn.paramDataUnmarshalBinaryFrom NewUnmarshalBinaryFrom data = Ok (pd, rest) →
          ∃ w'', GetEmbedding word w' = Ok (Some (length (heap w)), w'') ∧
                 heap w'' = heap w ++ [materialized (storage (model w))
                                         (ReadOnly (config (model w))) word pd].
Proof.
  intros Hcons. destruct (ClearUsedEmbeddings_consistent H w Hcons) as [Hclear _].
  eexists. split; [exact Hclear|]. cbn. repeat split.
  intros word t data pd rest Hdb Ht Hdec.
  pose proof (getEmbedding_materializes word (with_cache ∅ (heap w) w) t data rest pd
                eq_refl Hdb Ht Hdec) as Hget.
  eexists. split.
  - unfold GetEmbedding. unfold mbind, E_bind. rewrite Hget. reflexivity.
  - reflexivity.
Qed.

(** Two writes under one word: the store keeps the last value. The lookup
    that follows builds a parameter with that value and the empty payload,
    named after the word, backed by the model's store, that takes
    gradients. *)
Theorem SetEmbedding_twice_keeps_last (word : string) (v1 v2 : Dense) (w : state)
    (t : gmap string (list byte)) :
  ReadOnly (config (model w)) = false →
  dbs w !! storage (model w) = Some t →
  UsedEmbeddings (model w) !! word = None →
  nn.roundtrips MarshalBinaryTo NewUnmarshalBinaryFrom v1 →
  nn.roundtrips MarshalBinaryTo NewUnmarshalBinaryFrom v2 →
  ∃ w2 w3,
    (SetEmbedding word v1;; SetEmbedding word v2) w = Ok (tt, w2) ∧
    GetEmbedding word w2 = Ok (Some (length (heap w)), w3) ∧
    heap w3 = heap w ++ [nn.mkParam word nn.Undefined (Some v2) None
                           (Some nn.NewEmptySupport) false true
                           (Some (storage (model w)))] ∧
    (∀ k, k ≠ word →
       ∃ t2, dbs w2 !! storage (model w2) = Some t2 ∧ t2 !! k = t !! k).
Proof.
  intros Hro Hdb Hc Hv1 Hv2.
  destruct (SetEmbedding_stores word v1 w t Hro Hdb Hv1) as (buf1 & Hrun1 & _).
  set (w1 := mkState (model w) (heap w)
               (<[storage (model w) := <[word := buf1]> t]> (dbs w)) (graph w)) in *.
  destruct (SetEmbedding_stores word v2 w1 (<[word := buf1]> t) Hro) as (buf2 & Hrun2 & Hdec2);
    [cbn; by rewrite lookup_insert_eq|exact Hv2|].
  eexists _, _. split.
  { unfold mbind, E_bind. rewrite Hrun1. exact Hrun2. }
  cbn. split; [|split].
  - unfold GetEmbedding. unfold mbind, E_bind.
    erewrite (getEmbedding_materializes word _ (<[word := buf2]> (<[word := buf1]> t)) buf2);
      [reflexivity|exact Hc|cbn; by rewrite lookup_insert_eq
      |by rewrite lookup_insert_eq|exact Hdec2].
  - cbn. unfold materialized. by rewrite Hro.
  - intros k Hk. eexists. split; [by rewrite lookup_insert_eq|].
    by rewrite !lookup_insert_ne.
Qed.

(** An update reaches the store. In a model that is not read-only, a stored
    word is looked up and its parameter is updated by [ApplyDelta]: the
    parameter in the working set holds the new value, and the entry of the
    word in the store is replaced by bytes that decode to the new value with
    the payload as it was; no other entry changes. *)
Theorem ApplyDelta_on_embedding_reaches_store (fsub : F → F → F) (word : string)
    (v delta : Dense) (supp : nn.Payload) (data rest : list byte) (w : state)
    (t : gmap string (list byte)) :
  ReadOnly (config (model w)) = false →
  dbs w !! storage (model w) = Some t →
  UsedEmbeddings (model w) !! word = None →
  t !! word = Some data →
  nn.paramDataUnmarshalBinaryFrom NewUnmarshalBinaryFrom data
  = Ok (nn.mkParamData v (Some supp), rest) →
  mat.SameDims v delta = true →
  nn.roundtrips MarshalBinaryTo NewUnmarshalBinaryFrom (nn.msub fsub v delta) →
  nn.payload_ok MarshalBinaryTo NewUnmarshalBinaryFrom supp →
  ∃ w1 w2 bs,
    GetEmbedding word w = Ok (Some (length (heap w)), w1) ∧
    on_param (length (heap w)) (nn.ApplyDelta fsub MarshalBinaryTo delta) w1 = Ok (tt, w2) ∧
    heap w2 = heap w ++ [nn.mkParam word nn.Undefined (Some (nn.msub fsub v delta)) None
                           (Some supp) false true (Some (storage (model w)))] ∧
    UsedEmbeddings (model w2) !! word = Some (length (heap w)) ∧
    dbs w2 = <[storage (model w) := <[word := bs]> t]> (dbs w) ∧
    nn.paramDataUnmarshalBinaryFrom NewUnmarshalBinaryFrom bs
    = Ok (nn.mkParamData (nn.msub fsub v delta) (Some supp), []).
Proof.
  intros Hro Hdb Hc Ht Hdec Hd Hv Hsupp.
  destruct (nn.paramData_roundtrip MarshalBinaryTo NewUnmarshalBinaryFrom _ supp Hv Hsupp)
    as (bs & Hbs & Hback).
  pose proof (getEmbedding_materializes word w t data rest _ Hc Hdb Ht Hdec) as Hget.
  set (p := materialized (storage (model w)) (ReadOnly (config (model w))) word
              (nn.mkParamData v (Some supp))) in *.
  destruct (nn.ApplyDelta_backed fsub MarshalBinaryTo p (dbs w) [] v delta
              (storage (model w)) t supp bs) as (s' & Hrun & Hself & Hdbs & _);
    [done|done|done|done|done|exact Hbs|].
  eexists _, _, bs. split; [|split].
  - unfold GetEmbedding. unfold mbind, E_bind. rewrite Hget. reflexivity.
  - rewrite (on_param_last _ _ (heap w) p) by done. cbn. rewrite Hrun. reflexivity.
  - cbn. rewrite Hself, Hdbs. unfold p, materialized. cbn. rewrite Hro. cbn.
    repeat split; [by rewrite lookup_insert_eq|exact Hback].
Qed.

(** *** More on the processor *)

(** Words that are neither cached nor stored, in either case: [NewProc] then
    [Encode] gives every position the processor's zero node, and wraps no
    parameter. Where the model uses no zero embedding the node is nil and the
    graph is left as it is; where it does, the node is the one [NewProc]
    added to the graph for [ZeroEmbedding]. *)
Theorem Encode_unknown_words (words : list string) (w : state)
    (t : gmap string (list byte)) :
  dbs w !! storage (model w) = Some t →
  (∀ x, x ∈ words →
     UsedEmbeddings (model w) !! x = None ∧ t !! x = None ∧
     UsedEmbeddings (model w) !! ToLower x = None ∧ t !! ToLower x = None) →
  ∃ p w1,
    NewProc w = Ok (p, w1) ∧
    Encode p words w1 = Ok (replicate (length words) (zeroEmbedding p), w1) ∧
    (UseZeroEmbedding (config (model w)) = false → zeroEmbedding p = None ∧ w1 = w) ∧
    (UseZeroEmbedding (config (model w)) = true →
       zeroEmbedding p = Some (length (graph w)) ∧
       graph w1 = graph w ++ [ZeroEmbedding (model w)]).
Proof.
  intros Hdb Hmiss.
  assert (∀ p w1, model w1 = model w → dbs w1 = dbs w →
            ∀ ws cache, (∀ x, x ∈ ws → x ∈ words) →
              (∀ k n, cache !! k = Some n → n = zeroEmbedding p) →
              Encode_loop p ws cache w1
              = Ok (replicate (length ws) (zeroEmbedding p), w1)) as Hloop.
  { intros p w1 Hm Hd ws. induction ws as [|x xs IH]; intros cache Hin Hcache; [done|].
    cbn [Encode_loop length replicate].
    destruct (cache !! x) as [item|] eqn:Hx.
    - unfold mbind, E_bind. rewrite IH; [|set_solver|done].
      by rewrite (Hcache x item Hx).
    - destruct (Hmiss x) as (H1 & H2 & H3 & H4); [set_solver|].
      assert (Processor_getEmbedding p x w1 = Ok (zeroEmbedding p, w1)) as Hget.
      { unfold Processor_getEmbedding, GetEmbedding. unfold mbind, E_bind.
        rewrite (getEmbedding_absent x w1 t); [|by rewrite Hm|by rewrite Hd, Hm|done].
        by rewrite (getEmbedding_absent (ToLower x) w1 t);
          [|by rewrite Hm|by rewrite Hd, Hm|done]. }
      unfold mbind, E_bind. rewrite Hget. rewrite IH; [done|set_solver|].
      intros k n. rewrite lookup_insert. case_decide; [naive_solver|by apply Hcache]. }
  unfold NewProc. unfold mbind at 1, E_bind at 1, gets at 1.
  destruct (UseZeroEmbedding (config (model w))) eqn:Huse.
  - eexists _, _. split; [reflexivity|].
    split; [unfold Encode; by apply Hloop|]. cbn. split; [done|]. done.
  - exists (mkProcessor None), w. split; [reflexivity|].
    split; [unfold Encode; by apply Hloop|]. split; done.
Qed.

(** [Close] closes the store and empties the working set, and does so again
    on a model that is closed already: the error of [storage.Close] is
    dropped. The parameters on the heap are not touched. *)
Theorem Close_clears_and_can_be_repeated (H : string → Dense → Prop) (w : state) :
  consistent H w →
  ∃ w', Close w = Ok (tt, w') ∧
        UsedEmbeddings (model w') = ∅ ∧
        heap w' = heap w ∧
        dbs w' = delete (storage (model w)) (dbs w) ∧
        Close w' = Ok (tt, w').
Proof.
  intros [(t & Hdb & _) Hcache].
  assert (∀ w1, heap w1 = heap w → UsedEmbeddings (model w1) = UsedEmbeddings (model w) ∨
                                   UsedEmbeddings (model w1) = ∅ →
                ClearUsedEmbeddings w1 = Ok (tt, with_cache ∅ (heap w1) w1)) as Hclear.
  { intros w1 Hh Hu. unfold ClearUsedEmbeddings. unfold mbind, E_bind, gets. cbn.
    rewrite release_all_ok; [done|].
    intros l Hl. apply list_elem_of_fmap in Hl as ([k l'] & -> & Hl).
    apply elem_of_map_to_list in Hl. rewrite Hh.
    destruct Hu as [Hu|Hu]; rewrite Hu in Hl; [|by rewrite lookup_empty in Hl].
    destruct (Hcache k l' Hl) as (p & v & Hp & Hv & _). eauto. }
  eexists. split.
  { unfold Close. unfold mbind, E_bind, gets, close_ignoring_error. cbn.
    unfold kvdb.Close. rewrite Hdb. apply Hclear; [done|by left]. }
  cbn. repeat split.
  unfold Close. unfold mbind, E_bind, gets, close_ignoring_error. cbn.
  unfold kvdb.Close. rewrite lookup_delete_eq.
  rewrite Hclear; [done|done|by right].
Qed.

End Embeddings.

(** *** Runs on a concrete store *)

(** [strings.ToLower] on ASCII letters. *)
Definition lower_ascii (c : Ascii.ascii) : Ascii.ascii :=
  let n := Ascii.nat_of_ascii c in
  if (65 <=? n)%nat && (n <=? 90)%nat then Ascii.ascii_of_nat (n + 32) else c.

Fixpoint ToLowerASCII (s : string) : string :=
  match s with
  | EmptyString => EmptyString
  | String c s' => String (lower_ascii c) (ToLowerASCII s')
  end.

Definition config0 : Config := mkConfig 2 false "embeddings" false false.
Definition config_ro : Config := mkConfig 2 false "embeddings" true false.

(** A new model on an open, empty store. *)
Definition store0 : state (F := Z) := New 0 config0 0%nat {[0%nat := ∅]}.

Definition v_paris : mat.Dense Z := mat.mkDense 2 1 [3; 4].
Definition v_new : mat.Dense Z := mat.mkDense 2 1 [7; 8].

Lemma roundtrips_v_paris :
  nn.roundtrips exact.MarshalBinaryTo exact.NewUnmarshalBinaryFrom v_paris.
Proof. eexists. split; [reflexivity|]. intros rest. vm_compute. reflexivity. Qed.

Lemma roundtrips_v_new :
  nn.roundtrips exact.MarshalBinaryTo exact.NewUnmarshalBinaryFrom v_new.
Proof. eexists. split; [reflexivity|]. intros rest. vm_compute. reflexivity. Qed.

Lemma consistent_store0 :
  consistent exact.NewUnmarshalBinaryFrom (λ _ _, False) store0.
Proof.
  split.
  - exists ∅. split; [reflexivity|]. intros k data. by rewrite lookup_empty.
  - intros k l. cbn. by rewrite lookup_empty.
Qed.

(** The values stored once "paris" has been set. *)
Definition stored_paris (k : string) (u : mat.Dense Z) : Prop :=
  False ∨ (k = "paris" ∧ u = v_paris).

(** The state once "paris" has been set, with whatever bytes stand for it. *)
Definition store_with_paris (cfg : Config) (buf : list byte) : state (F := Z) :=
  mkState (mkModel cfg 0%nat ∅ 0%nat) (heap store0)
    (<[0%nat := <["paris" := buf]> ∅]> (dbs store0)) [].

Lemma store_paris :
  ∃ buf,
    SetEmbedding exact.MarshalBinaryTo "paris" v_paris store0
    = Ok (tt, store_with_paris config0 buf) ∧
    nn.paramDataUnmarshalBinaryFrom exact.NewUnmarshalBinaryFrom buf
    = Ok (nn.mkParamData v_paris (Some nn.NewEmptySupport), []) ∧
    consistent exact.NewUnmarshalBinaryFrom stored_paris (store_with_paris config0 buf).
Proof.
  destruct (SetEmbedding_stores exact.MarshalBinaryTo exact.NewUnmarshalBinaryFrom
              "paris" v_paris store0 ∅ eq_refl eq_refl roundtrips_v_paris)
    as (buf & Hrun & Hdec).
  exists buf. split; [exact Hrun|]. split; [exact Hdec|].
  destruct (SetEmbedding_consistent exact.MarshalBinaryTo exact.NewUnmarshalBinaryFrom
              (λ _ _, False) "paris" v_paris store0 consistent_store0 eq_refl
              roundtrips_v_paris)
    as (w' & t' & Hrun' & Hcons & _).
  rewrite Hrun in Hrun'. injection Hrun' as <-. exact Hcons.
Qed.

(** "paris" is set; "Paris" is found through the lower-case lookup, with the
    value that was set. *)
Lemma GetEmbedding_lookup_order_witness :
  ∃ w1 w2 l p,
    SetEmbedding exact.MarshalBinaryTo "paris" v_paris store0 = Ok (tt, w1) ∧
    GetEmbedding exact.NewUnmarshalBinaryFrom ToLowerASCII "Paris" w1 = Ok (Some l, w2) ∧
    heap w2 !! l = Some p ∧
    nn.value p = Some v_paris ∧
    UsedEmbeddings (model w2) !! "paris" = Some l.
Proof.
  destruct store_paris as (buf & Hset & Hdec & Hcons).
  destruct (GetEmbedding_lookup_order exact.NewUnmarshalBinaryFrom ToLowerASCII
              stored_paris "Paris" (store_with_paris config0 buf)
              (<["paris" := buf]> ∅) Hcons)
    as (r & w2 & Hrun & _ & Hcase & _ & Hval).
  { cbn. by rewrite lookup_insert_eq. }
  change (UsedEmbeddings (model (store_with_paris config0 buf)))
    with (∅ : gmap string nat) in Hcase.
  change (ToLowerASCII "Paris") with "paris" in Hcase.
  rewrite !lookup_empty, lookup_insert_ne, lookup_empty, lookup_insert_eq in Hcase by done.
  destruct Hcase as (pd & rest & _ & -> & ->).
  destruct (Hval _ eq_refl) as (p & v & k & Hp & Hv & Hk & Hused & [[]|[-> ->]]).
  eexists _, _, _, p. split; [exact Hset|]. split; [exact Hrun|]. done.
Defined.

(** "paris" is cached, then set to a new value: the lookup still returns the
    cached parameter. *)
Lemma SetEmbedding_leaves_working_set_witness :
  ∃ w2 w3 l,
    UsedEmbeddings (model w2) !! "paris" = Some l ∧
    SetEmbedding exact.MarshalBinaryTo "paris" v_new w2 = Ok (tt, w3) ∧
    GetEmbedding exact.NewUnmarshalBinaryFrom ToLowerASCII "paris" w3 = Ok (Some l, w3) ∧
    heap w3 = heap w2.
Proof.
  destruct store_paris as (buf & _ & _ & Hcons).
  destruct (GetEmbedding_stored exact.NewUnmarshalBinaryFrom ToLowerASCII stored_paris
              "paris" (store_with_paris config0 buf) (<["paris" := buf]> ∅) buf Hcons)
    as (w2 & _ & Hcons2 & Hused & Hcfg).
  { cbn. by rewrite lookup_insert_eq. }
  { done. }
  { by rewrite lookup_insert_eq. }
  destruct (SetEmbedding_leaves_working_set exact.MarshalBinaryTo
              exact.NewUnmarshalBinaryFrom ToLowerASCII stored_paris "paris" v_new w2
              (length (heap (store_with_paris config0 buf))) Hcons2)
    as (w3 & Hset & _ & Hheap & Hget & _).
  { by rewrite Hcfg. }
  { exact roundtrips_v_new. }
  { exact Hused. }
  eexists w2, w3, _. split; [exact Hused|]. split; [exact Hset|]. split; [exact Hget|exact Hheap].
Defined.

(** A read-only model on a store that holds "paris". *)
Lemma ReadOnly_store_witness :
  ∃ w,
    ReadOnly (config (model w)) = true ∧
    SetEmbedding exact.MarshalBinaryTo "rome" v_new w
    = Fatal "embedding: set operation not permitted in read-only mode" ∧
    ∃ l w' p,
      GetEmbedding exact.NewUnmarshalBinaryFrom ToLowerASCII "Paris" w = Ok (Some l, w') ∧
      heap w' !! l = Some p ∧
      nn.requiresGrad p = false.
Proof.
  destruct store_paris as (buf & _ & Hdec & _).
  exists (store_with_paris config_ro buf). split; [reflexivity|].
  destruct (ReadOnly_store_refuses_writes_and_gradients exact.MarshalBinaryTo
              exact.NewUnmarshalBinaryFrom ToLowerASCII "Paris"
              (store_with_paris config_ro buf) eq_refl) as [Hset Hget].
  split.
  { unfold SetEmbedding. reflexivity. }
  assert (∃ l w', GetEmbedding exact.NewUnmarshalBinaryFrom ToLowerASCII "Paris"
                    (store_with_paris config_ro buf) = Ok (Some l, w'))
    as (l & w' & Hrun).
  { unfold GetEmbedding. unfold mbind, E_bind.
    rewrite (getEmbedding_absent _ "Paris" _ (<["paris" := buf]> ∅)); cycle 1.
    - done.
    - cbn. by rewrite lookup_insert_eq.
    - by rewrite lookup_insert_ne.
    - change (ToLowerASCII "Paris") with "paris".
      erewrite (getEmbedding_materializes _ "paris" _ (<["paris" := buf]> ∅) buf);
        [by eexists _, _|done| |by rewrite lookup_insert_eq|exact Hdec].
      cbn. by rewrite lookup_insert_eq. }
  destruct (Hget l w' Hrun) as (p & Hp & _ & Hrg); [done|done|].
  exists l, w', p. done.
Defined.

(** The store once "the" and "cat" have been set, and a processor on it. *)
Definition store_the_cat : state (F := Z) :=
  match (SetEmbedding exact.MarshalBinaryTo "the" v_paris;;
         SetEmbedding exact.MarshalBinaryTo "cat" v_new) store0 with
  | Ok (_, w) => w
  | _ => store0
  end.

(** "the", "the", "cat" on a store that holds both words. *)
Lemma Encode_one_node_per_word_witness :
  ∃ encoding w',
    Encode exact.NewUnmarshalBinaryFrom ToLowerASCII (mkProcessor None)
      ["the"; "the"; "cat"] store_the_cat = Ok (encoding, w') ∧
    length encoding = 3%nat ∧
    encoding !! 0%nat = encoding !! 1%nat ∧
    first_occurrences ∅ ["the"; "the"; "cat"] = ["the"; "cat"].
Proof.
  assert (∃ encoding w',
            Encode exact.NewUnmarshalBinaryFrom ToLowerASCII (mkProcessor None)
              ["the"; "the"; "cat"] store_the_cat = Ok (encoding, w'))
    as (encoding & w' & Hrun).
  { do 2 eexists. vm_compute. reflexivity. }
  destruct (Encode_one_node_per_word exact.NewUnmarshalBinaryFrom ToLowerASCII
              (mkProcessor None) ["the"; "the"; "cat"] store_the_cat)
    as (_ & _ & _ & Hprop).
  destruct (Hprop encoding w' Hrun) as [Hlen Hsame].
  exists encoding, w'. split; [exact Hrun|]. split; [exact Hlen|].
  split; [by apply (Hsame 0%nat 1%nat "the")|]. reflexivity.
Defined.

(** The example of the spec: three nodes for "the", "the", "cat", the first
    two the same node, and two nodes wrapped into the graph. *)
Example Encode_the_the_cat :
  match Encode exact.NewUnmarshalBinaryFrom ToLowerASCII (mkProcessor None)
          ["the"; "the"; "cat"] store_the_cat with
  | Ok (encoding, w') =>
    encoding = [Some 0; Some 0; Some 1]%nat ∧ graph w' = [1; 2]%nat
  | _ => False
  end.
Proof. vm_compute. split; reflexivity. Qed.

(** *** Runs of the further properties *)

(** "The" is found through "the"; the second call returns the parameter of
    the first. *)
Lemma GetEmbedding_again_witness :
  ∃ l w',
    GetEmbedding exact.NewUnmarshalBinaryFrom ToLowerASCII "The" store_the_cat
    = Ok (Some l, w') ∧
    GetEmbedding exact.NewUnmarshalBinaryFrom ToLowerASCII "The" w' = Ok (Some l, w').
Proof.
  assert (∃ l w', GetEmbedding exact.NewUnmarshalBinaryFrom ToLowerASCII "The"
                    store_the_cat = Ok (Some l, w')) as (l & w' & Hrun).
  { do 2 eexists. vm_compute. reflexivity. }
  exists l, w'. split; [exact Hrun|].
  exact (proj1 (GetEmbedding_again exact.NewUnmarshalBinaryFrom ToLowerASCII "The"
                  store_the_cat w' (Some l) Hrun)).
Defined.

(** The empty store counts no word, and one word once "paris" is set. *)
Lemma Count_counts_the_store_witness :
  Count store0 = Ok (0, store0) ∧
  ∀ w', SetEmbedding exact.MarshalBinaryTo "paris" v_paris store0 = Ok (tt, w') →
        Count w' = Ok (1, w').
Proof.
  destruct (Count_counts_the_store exact.MarshalBinaryTo exact.NewUnmarshalBinaryFrom
              ToLowerASCII store0 ∅ eq_refl) as (Hcount & _ & _ & Hset).
  split; [exact Hcount|]. intros w' Hrun. exact (Hset "paris" v_paris w' Hrun).
Defined.

(** "paris" is cached, then the working set is cleared. *)
Lemma ClearUsedEmbeddings_keeps_the_store_witness :
  ∃ (w2 w3 : state (F := Z)) l,
    UsedEmbeddings (model w2) !! "paris" = Some l ∧
    ClearUsedEmbeddings w2 = Ok (tt, w3) ∧
    UsedEmbeddings (model w3) = ∅ ∧ heap w3 = heap w2 ∧ dbs w3 = dbs w2.
Proof.
  destruct store_paris as (buf & _ & _ & Hcons).
  destruct (GetEmbedding_stored exact.NewUnmarshalBinaryFrom ToLowerASCII stored_paris
              "paris" (store_with_paris config0 buf) (<["paris" := buf]> ∅) buf Hcons)
    as (w2 & _ & Hcons2 & Hused & _).
  { cbn. by rewrite lookup_insert_eq. }
  { done. }
  { by rewrite lookup_insert_eq. }
  destruct (ClearUsedEmbeddings_keeps_the_store exact.NewUnmarshalBinaryFrom ToLowerASCII
              stored_paris w2 Hcons2) as (w3 & Hclear & Hempty & Hheap & Hdbs & _).
  eexists w2, w3, _. split; [exact Hused|]. done.
Defined.

(** "paris" is set to one value, then to another, on the empty store. *)
Lemma SetEmbedding_twice_keeps_last_witness :
  ∃ w2 w3 l p,
    (SetEmbedding exact.MarshalBinaryTo "paris" v_paris;;
     SetEmbedding exact.MarshalBinaryTo "paris" v_new) store0 = Ok (tt, w2) ∧
    GetEmbedding exact.NewUnmarshalBinaryFrom ToLowerASCII "paris" w2 = Ok (Some l, w3) ∧
    heap w3 !! l = Some p ∧ nn.value p = Some v_new.
Proof.
  destruct (SetEmbedding_twice_keeps_last exact.MarshalBinaryTo exact.NewUnmarshalBinaryFrom
              ToLowerASCII "paris" v_paris v_new store0 ∅ eq_refl eq_refl eq_refl
              roundtrips_v_paris roundtrips_v_new)
    as (w2 & w3 & Hset & Hget & Hheap & _).
  eexists w2, w3, _, _. split; [exact Hset|]. split; [exact Hget|].
  rewrite Hheap. split; [by apply list_lookup_middle|]. reflexivity.
Defined.

Definition delta11 : mat.Dense Z := mat.mkDense 2 1 [1; 1].

(** The parameter of "paris" is updated by a delta: the store holds the new
    value. *)
Lemma ApplyDelta_on_embedding_reaches_store_witness :
  ∃ w w1 w2 l t bs,
    GetEmbedding exact.NewUnmarshalBinaryFrom ToLowerASCII "paris" w = Ok (Some l, w1) ∧
    on_param l (nn.ApplyDelta Z.sub exact.MarshalBinaryTo delta11) w1 = Ok (tt, w2) ∧
    dbs w2 !! 0%nat = Some t ∧ t !! "paris" = Some bs ∧
    nn.paramDataUnmarshalBinaryFrom exact.NewUnmarshalBinaryFrom bs
    = Ok (nn.mkParamData (mat.mkDense 2 1 [2; 3]) (Some nn.NewEmptySupport), []).
Proof.
  destruct store_paris as (buf & _ & Hdec & _).
  destruct (ApplyDelta_on_embedding_reaches_store exact.MarshalBinaryTo
              exact.NewUnmarshalBinaryFrom ToLowerASCII Z.sub "paris" v_paris delta11
              nn.NewEmptySupport buf [] (store_with_paris config0 buf)
              (<["paris" := buf]> ∅))
    as (w1 & w2 & bs & Hget & Hrun & Hheap & Hused & Hdbs & Hback).
  { reflexivity. }
  { cbn. by rewrite lookup_insert_eq. }
  { reflexivity. }
  { by rewrite lookup_insert_eq. }
  { exact Hdec. }
  { reflexivity. }
  { eexists. split; [reflexivity|]. intros rest. vm_compute. reflexivity. }
  { repeat split; cbn; try lia. constructor. }
  eexists (store_with_paris config0 buf), w1, w2, _, _, bs.
  split; [exact Hget|]. split; [exact Hrun|].
  rewrite Hdbs. split; [by rewrite lookup_insert_eq|].
  split; [by rewrite lookup_insert_eq|exact Hback].
Defined.

(** "dog" and "Dog" on the empty store, in a model without zero embedding:
    two nil nodes, and no node added to the graph. *)
Lemma Encode_unknown_words_witness :
  ∃ p,
    NewProc store0 = Ok (p, store0) ∧
    Encode exact.NewUnmarshalBinaryFrom ToLowerASCII p ["dog"; "Dog"] store0
    = Ok ([None; None], store0).
Proof.
  destruct (Encode_unknown_words exact.NewUnmarshalBinaryFrom ToLowerASCII
              ["dog"; "Dog"] store0 ∅ eq_refl)
    as (p & w1 & Hnew & Henc & Hno & _).
  { intros x _. cbn. by rewrite !lookup_empty. }
  destruct (Hno eq_refl) as [Hz ->]. rewrite Hz in Henc.
  exists p. split; [exact Hnew|exact Henc].
Defined.

(** The new model is closed, twice. *)
Lemma Close_clears_and_can_be_repeated_witness :
  ∃ w', Close store0 = Ok (tt, w') ∧ dbs w' = ∅ ∧ Close w' = Ok (tt, w').
Proof.
  destruct (Close_clears_and_can_be_repeated exact.NewUnmarshalBinaryFrom (λ _ _, False)
              store0 consistent_store0) as (w' & Hclose & _ & _ & Hdbs & Hagain).
  exists w'. split; [exact Hclose|]. split; [|exact Hagain].
  rewrite Hdbs. cbn. by rewrite delete_singleton_eq.
Defined.

End embeddings.
